(** * Energy Model of CPUs: kernel/power/energy_model.c

    A shallow embedding of the registration path of the energy model
    ([em_create_pd], [em_cpu_get], [em_register_perf_domain]) and the
    properties of the tables it publishes.

    Conventions of the embedding.
    - The target is a 64-bit kernel (arm64): [unsigned long] and [u64] are
      64-bit words, held in [Z] with the wrap-around written out ([wrap64]);
      [int] and [unsigned int] are 32 bits wide.
    - The per-CPU variable [em_data] is a finite map from CPU numbers to
      addresses; an absent key is the NULL pointer.  Performance domains live
      in a heap indexed by address, so that two CPUs holding the same address
      share one object.
    - The driver callback [cb->active_power] is a function of the frequency it
      is handed, the CPU, and a driver state of an arbitrary type [D]; it
      returns its status and the values it leaves in [*power] and [*freq].
    - [em_pd_mutex] serialises the registrations; the embedding is sequential
      and the lock leaves no trace in it. *)

From Stdlib Require Import ZArith Lia Ascii.
From stdpp Require Import base numbers option list gmap.

Local Open Scope Z_scope.

(** ** Machine integers and constants *)

Definition ULONG_MAX : Z := 2 ^ 64 - 1.
Definition SIZE_MAX : Z := 2 ^ 64 - 1.

(** Value of a 64-bit unsigned word. *)
Definition wrap64 (z : Z) : Z := z mod 2 ^ 64.

(** Conversion of a 32-bit value to [int] (two's complement). *)
Definition to_int (z : Z) : Z :=
  let w := z mod 2 ^ 32 in
  if w <? 2 ^ 31 then w else w - 2 ^ 32.

Definition EINVAL : Z := 22.
Definition EEXIST : Z := 17.
Definition ENODEV : Z := 19.

(** Modelled from the spec: the macro EM_CPU_MAX_POWER of
    include/linux/energy_model.h is not part of the sources at hand; the
    power has "to fit into 16 bits". *)
Definition EM_CPU_MAX_POWER : Z := 65535.

(** [sizeof(struct em_cap_state)]: three [unsigned long] fields. *)
Definition sizeof_em_cap_state : Z := 24.

(** [div64_u64]: unsigned 64-bit division.  The divisor is never 0 where the
    code calls it (see [chain_lower]). *)
Definition div64_u64 (dividend divisor : Z) : Z := dividend / divisor.

(** ** Data *)

Record em_cap_state := mk_cs {
  frequency : Z;
  power : Z;
  cost : Z
}.

Definition cpumask := list Z.
Definition addr := positive.

Record em_perf_domain := mk_pd {
  table : list em_cap_state;
  nr_cap_states : Z;
  cpus : cpumask
}.

(** What [pr_err] reports when the construction of the table stops. *)
Inductive build_error :=
| InvalidCapState (cpu ret : Z)
| NonIncreasingFreq (cpu freq : Z)
| InvalidPower (cpu power : Z).

Inductive event :=
| PrErrBuild (err : build_error)
| PrWarnRatio (cpu i j : Z)
| PrErrKobject (cpu ret : Z)
| PrErrCapacity (span : cpumask)
| PrDebugCreated (span : cpumask).

(** What the environment answers during one call: whether the allocations
    and the creation of the "energy_model" kobject succeed, what
    [kobject_init_and_add] returns, the capacity of each CPU and the number
    of bits of a cpumask. *)
Record env := mk_env {
  kzalloc_ok : bool;
  kcalloc_ok : bool;
  kobject_create_ok : bool;
  kobject_init_and_add_ret : Z;
  arch_scale_cpu_capacity : Z -> Z;
  nr_cpumask_bits : Z
}.

(** [cpumask_first]: the first CPU of the mask, [nr_cpumask_bits] when the
    mask is empty.  A mask is the list of its CPUs in increasing order, the
    order in which [for_each_cpu] visits them. *)
Definition cpumask_first (e : env) (span : cpumask) : Z :=
  match span with
  | [] => nr_cpumask_bits e
  | cpu :: _ => cpu
  end.

(** [kcalloc(n, size)]: refuses a product that overflows [size_t]
    (the count arrives as a [size_t]), otherwise the allocator decides. *)
Definition kcalloc (e : env) (n size : Z) : bool :=
  if wrap64 n >? SIZE_MAX / size then false else kcalloc_ok e.

Section Model.

Context {D : Type}.

Record em_data_callback := mk_cb {
  active_power : option (Z -> Z -> D -> Z * Z * Z * D)
}.

(** The part of the state the construction loop works on: the driver, the
    kernel log (oldest message first) and the arguments [(freq, cpu)] of the
    calls of [active_power], in the order of the calls. *)
Record io_state := mk_io {
  drv : D;
  klog : list event;
  cb_calls : list (Z * Z)
}.

Record em_state := mk_st {
  em_data : gmap Z addr;
  em_kobject : bool;
  heap : gmap addr em_perf_domain;
  io : io_state
}.

(** Result of a run: a value and a state, or an access outside an array. *)
Inductive run (A : Type) :=
| Ret (a : A) (s : em_state)
| Fault.
Arguments Ret {A} a s.
Arguments Fault {A}.

Definition pr (ev : event) (o : io_state) : io_state :=
  mk_io (drv o) (klog o ++ [ev]) (cb_calls o).

Definition set_io (o : io_state) (s : em_state) : em_state :=
  mk_st (em_data s) (em_kobject s) (heap s) o.

Definition set_heap (h : gmap addr em_perf_domain) (s : em_state) : em_state :=
  mk_st (em_data s) (em_kobject s) h (io s).

(** The locals of [em_create_pd] that live across iterations. *)
Record locals := mk_locals {
  l_i : Z;
  l_freq : Z;
  l_prev_freq : Z;
  l_prev_opp_eff : Z;
  l_table : list em_cap_state
}.

(** One iteration of the loop of lines 124-168, with its [i++, freq++]. *)
Definition em_create_pd_iter (ap : Z -> Z -> D -> Z * Z * Z * D) (cpu : Z)
    (l : locals) (o : io_state) : (build_error + locals) * io_state :=
  let '(ret, power, freq, d) := ap (l_freq l) cpu (drv o) in
  let power := wrap64 power in
  let freq := wrap64 freq in
  let o := mk_io d (klog o) (cb_calls o ++ [(l_freq l, cpu)]) in
  if negb (ret =? 0) then
    (inl (InvalidCapState cpu ret), pr (PrErrBuild (InvalidCapState cpu ret)) o)
  else if freq <=? l_prev_freq l then
    (inl (NonIncreasingFreq cpu freq), pr (PrErrBuild (NonIncreasingFreq cpu freq)) o)
  else if (power =? 0) || (power >? EM_CPU_MAX_POWER) then
    (inl (InvalidPower cpu power), pr (PrErrBuild (InvalidPower cpu power)) o)
  else
    let table :=
      alter (fun cs => mk_cs freq power (cost cs)) (Z.to_nat (l_i l)) (l_table l) in
    let opp_eff := freq / power in
    let o := if opp_eff >=? l_prev_opp_eff l
             then pr (PrWarnRatio cpu (l_i l) (l_i l - 1)) o else o in
    (inr (mk_locals (l_i l + 1) (wrap64 (freq + 1)) freq opp_eff table), o).

(** The loop itself; [n] is the number of iterations left.  From [i = 0]
    the condition [i < nr_states] lets [Z.to_nat nr_states] of them run. *)
Fixpoint em_create_pd_loop (ap : Z -> Z -> D -> Z * Z * Z * D) (cpu : Z)
    (n : nat) (l : locals) (o : io_state) : (build_error + locals) * io_state :=
  match n with
  | O => (inr l, o)
  | S n' =>
    match em_create_pd_iter ap cpu l o with
    | (inl err, o') => (inl err, o')
    | (inr l', o') => em_create_pd_loop ap cpu n' l' o'
    end
  end.

Definition set_cost (fmax : Z) (cs : em_cap_state) : em_cap_state :=
  mk_cs (frequency cs) (power cs)
        (div64_u64 (wrap64 (fmax * power cs)) (frequency cs)).

(** The loop of lines 172-175; [n] iterations left, starting at index [i]. *)
Fixpoint em_cost_loop (fmax : Z) (n : nat) (i : Z)
    (tbl : list em_cap_state) : list em_cap_state :=
  match n with
  | O => tbl
  | S n' => em_cost_loop fmax n' (i + 1) (alter (set_cost fmax) (Z.to_nat i) tbl)
  end.

Definition loop_init (nr_states : Z) : locals :=
  mk_locals 0 0 0 ULONG_MAX
            (replicate (Z.to_nat nr_states) (mk_cs 0 0 0)).

Definition kfree (p : addr) (s : em_state) : em_state :=
  set_heap (delete p (heap s)) s.

Definition em_create_pd (e : env) (span : cpumask) (nr_states : Z)
    (cb : em_data_callback) (s : em_state) : run (option addr) :=
  let cpu := cpumask_first e span in
  match active_power cb with
  | None => Ret None s
  | Some ap =>
    if negb (kzalloc_ok e) then Ret None s
    else
      let pd := fresh (dom (heap s)) in
      let s := set_heap (<[pd := mk_pd [] 0 []]> (heap s)) s in
      if negb (kcalloc e nr_states sizeof_em_cap_state) then Ret None (kfree pd s)
      else
        match em_create_pd_loop ap cpu (Z.to_nat nr_states)
                (loop_init nr_states) (io s) with
        | (inl _, o) => Ret None (kfree pd (set_io o s))
        | (inr l, o) =>
          if nr_states - 1 <? 0 then Fault
          else
            match l_table l !! Z.to_nat (nr_states - 1) with
            | None => Fault
            | Some last =>
              let fmax := frequency last in
              let tbl := em_cost_loop fmax (Z.to_nat nr_states) 0 (l_table l) in
              let s := set_io o s in
              let s := set_heap (<[pd := mk_pd tbl nr_states span]> (heap s)) s in
              let ret := kobject_init_and_add_ret e in
              let s := if negb (ret =? 0)
                       then set_io (pr (PrErrKobject cpu ret) (io s)) s else s in
              Ret (Some pd) s
            end
        end
  end.

(** [em_cpu_get]: the domain of a CPU, [None] for NULL. *)
Definition em_cpu_get (cpu : Z) (s : em_state) : option addr :=
  em_data s !! cpu.

(** The loop of lines 248-267: the return code it leaves in [ret] and the
    log.  It reads the per-CPU pointers and the capacities only. *)
Fixpoint em_check_cpus (e : env) (m : gmap Z addr) (span full : cpumask)
    (prev_cap : Z) (o : io_state) : Z * io_state :=
  match span with
  | [] => (0, o)
  | cpu :: rest =>
    match m !! cpu with
    | Some _ => (- EEXIST, o)
    | None =>
      let cap := wrap64 (arch_scale_cpu_capacity e cpu) in
      if negb (prev_cap =? 0) && negb (prev_cap =? cap)
      then (- EINVAL, pr (PrErrCapacity full) o)
      else em_check_cpus e m rest full cap o
    end
  end.

(** The loop of lines 276-283. *)
Fixpoint em_publish (span : cpumask) (pd : addr) (m : gmap Z addr) : gmap Z addr :=
  match span with
  | [] => m
  | cpu :: rest => em_publish rest pd (<[cpu := pd]> m)
  end.

Definition em_register_perf_domain (e : env) (span : option cpumask)
    (nr_states : Z) (cb : option em_data_callback) (s : em_state) : run Z :=
  match span, cb with
  | Some span, Some cb =>
    if nr_states =? 0 then Ret (- EINVAL) s
    else if negb (em_kobject s) && negb (kobject_create_ok e) then Ret (- ENODEV) s
    else
      let s := mk_st (em_data s) true (heap s) (io s) in
      let '(ret, o) := em_check_cpus e (em_data s) span span 0 (io s) in
      let s := set_io o s in
      if negb (ret =? 0) then Ret ret s
      else
        match em_create_pd e span (to_int nr_states) cb s with
        | Fault => Fault
        | Ret None s => Ret (- EINVAL) s
        | Ret (Some pd) s =>
          let s := mk_st (em_publish span pd (em_data s)) (em_kobject s) (heap s) (io s) in
          Ret 0 (set_io (pr (PrDebugCreated span) (io s)) s)
        end
  | _, _ => Ret (- EINVAL) s
  end.

End Model.

Arguments em_data_callback : clear implicits.
Arguments io_state : clear implicits.
Arguments em_state : clear implicits.
Arguments run : clear implicits.
Arguments Ret {D A} a s.
Arguments Fault {D A}.

(** ** A concrete platform: the scenario of four capacity states *)

Definition demo_env : env :=
  mk_env true true true 0 (fun _ => 1024) 8.

(** A stateless driver: a table of (power, frequency) points. *)
Fixpoint opp_lookup (opps : list (Z * Z)) (freq : Z) : option (Z * Z) :=
  match opps with
  | [] => None
  | (p, f) :: rest => if freq <=? f then Some (p, f) else opp_lookup rest freq
  end.

Definition opp_active_power (opps : list (Z * Z)) (freq cpu : Z) (d : unit)
  : Z * Z * Z * unit :=
  match opp_lookup opps freq with
  | Some (p, f) => (0, p, f, d)
  | None => (- EINVAL, 0, freq, d)
  end.

Definition demo_cb (opps : list (Z * Z)) : em_data_callback unit :=
  mk_cb (Some (opp_active_power opps)).

Definition demo_opps : list (Z * Z) :=
  [(10, 100); (15, 200); (25, 400); (60, 800)].

Definition st0 : em_state unit :=
  mk_st ∅ false ∅ (mk_io tt [] []).

Definition io0 : io_state unit := mk_io tt [] [].

(** The state a run ends in ([dflt] when it leaves the table). *)
Definition run_state {D : Type} (r : run D Z) (dflt : em_state D) : em_state D :=
  match r with
  | Ret _ s => s
  | Fault => dflt
  end.

(** CPUs 0 and 1 registered with the four capacity states. *)
Definition st1 : em_state unit :=
  run_state (em_register_perf_domain demo_env (Some [0; 1]) 4
               (Some (demo_cb demo_opps)) st0) st0.

(** The first iteration of that registration has run. *)
Definition demo_l1 : locals :=
  mk_locals 1 101 100 10 [mk_cs 100 10 0; mk_cs 0 0 0; mk_cs 0 0 0; mk_cs 0 0 0].

Definition demo_o1 : io_state unit := mk_io tt [] [(0, 0)].

(** A driver whose second operating point draws no power. *)
Definition bad_opps : list (Z * Z) := [(10, 100); (0, 200)].

(** A driver whose only operating point has frequency 0 and power 0. *)
Definition null_opps : list (Z * Z) := [(0, 0)].

(** A driver with one operating point, at a frequency of 2^63. *)
Definition huge_opps : list (Z * Z) := [(2, 2 ^ 63)].

Definition st_huge : em_state unit :=
  run_state (em_register_perf_domain demo_env (Some [0]) 1
               (Some (demo_cb huge_opps)) st0) st0.


(** A platform on which CPU 0 has a smaller capacity than the others. *)
Definition het_env : env :=
  mk_env true true true 0 (fun cpu => if cpu <? 1 then 446 else 1024) 8.

(** CPU 2 registered on that platform. *)
Definition st_big : em_state unit :=
  run_state (em_register_perf_domain het_env (Some [2]) 4
               (Some (demo_cb demo_opps)) st0) st0.

(** The registration of CPUs 0 and 1 with the driver whose second
    operating point draws no power. *)
Definition st_bad : em_state unit :=
  run_state (em_register_perf_domain demo_env (Some [0; 1]) 2
               (Some (demo_cb bad_opps)) st0) st0.

(** A registration with a count of 2^31. *)
Definition st_count : em_state unit :=
  run_state (em_register_perf_domain demo_env (Some [0; 1]) (2 ^ 31)
               (Some (demo_cb demo_opps)) st0) st0.

(** A registration with a mask that holds no CPU. *)
Definition st_empty : em_state unit :=
  run_state (em_register_perf_domain demo_env (Some []) 4
               (Some (demo_cb demo_opps)) st0) st0.

(** The domain of CPUs 0 and 1 in [st1]. *)
Definition demo_dom : em_perf_domain :=
  mk_pd [mk_cs 100 10 80; mk_cs 200 15 60; mk_cs 400 25 50; mk_cs 800 60 60]
        4 [0; 1].

(** The loop of that registration has run to its end. *)
Definition demo_l4 : locals :=
  mk_locals 4 801 800 13
    [mk_cs 100 10 0; mk_cs 200 15 0; mk_cs 400 25 0; mk_cs 800 60 0].

Definition demo_o4 : io_state unit :=
  mk_io tt [PrWarnRatio 0 1 0; PrWarnRatio 0 2 1]
        [(0, 0); (101, 0); (201, 0); (401, 0)].

(** CPUs 2 and 3 registered after CPUs 0 and 1, with one capacity state. *)
Definition st2 : em_state unit :=
  run_state (em_register_perf_domain demo_env (Some [2; 3]) 1
               (Some (demo_cb demo_opps)) st1) st1.

(** CPUs 0 and 1 handed over together on the platform where they differ. *)
Definition st_het : em_state unit :=
  run_state (em_register_perf_domain het_env (Some [0; 1]) 4
               (Some (demo_cb demo_opps)) st0) st0.

(** A platform on which CPU 0 reports the capacity 0. *)
Definition zero_env : env :=
  mk_env true true true 0 (fun cpu => if cpu <? 1 then 0 else 1024) 8.

(** ** Vocabulary of the statements *)

(** The frequencies grow strictly from one entry to the next. *)
Definition ascending (tbl : list em_cap_state) : Prop :=
  ∀ (i : nat) a b, tbl !! i = Some a → tbl !! S i = Some b → frequency a < frequency b.

(** The entries a run of the loop accepts when the previous frequency is
    [prev]: each passes the checks of lines 140 and 149. *)
Fixpoint chain (prev : Z) (es : list em_cap_state) : Prop :=
  match es with
  | [] => True
  | cs :: rest =>
    (prev < frequency cs < 2 ^ 64 ∧ 0 < power cs ≤ EM_CPU_MAX_POWER)
    ∧ chain (frequency cs) rest
  end.

(** The arguments of the calls that produce the entries [es], the first call
    being made with [*freq = f]. *)
Fixpoint probes (cpu f : Z) (es : list em_cap_state) : list (Z * Z) :=
  match es with
  | [] => []
  | cs :: rest => (f, cpu) :: probes cpu (wrap64 (frequency cs + 1)) rest
  end.

(** [pd] is the address of a domain that did not exist in [s], holds [dom]
    in [s'] and is what [em_cpu_get] returns in [s'] for every CPU of
    [mask]. *)
Definition installed {D : Type} (mask : cpumask) (s s' : em_state D)
    (pd : addr) (dom : em_perf_domain) : Prop :=
  heap s !! pd = None ∧ heap s' !! pd = Some dom ∧ cpus dom = mask ∧
  ∀ cpu, cpu ∈ mask → em_cpu_get cpu s' = Some pd.

(** At the state [(l, o)] of the loop the callback reports no error and a
    frequency above the previous one, with a power [p] that the check of
    line 149 refuses. *)
Definition rejects_power {D : Type} (ap : Z → Z → D → Z * Z * Z * D) (cpu : Z)
    (l : locals) (o : io_state D) (p : Z) : Prop :=
  ∃ ret pw fr d,
    ap (l_freq l) cpu (drv o) = (ret, pw, fr, d) ∧ ret = 0 ∧
    l_prev_freq l < wrap64 fr ∧ p = wrap64 pw ∧
    (p = 0 ∨ EM_CPU_MAX_POWER < p).

(** ** The sysfs attributes: [show_power], [show_frequency], [show_cost]

    The three functions are the instances of the macro [show_table_attr].
    The buffer is the page sysfs hands over; it is held as the text written
    so far, each write landing at [&buf[cnt]]. *)

Definition EM_ATTR_LEN : Z := 13.

Definition digit (d : Z) : ascii := ascii_of_N (Z.to_N (48 + d)).

(** The decimal digits of [v], most significant first; [fuel] digits at
    most. *)
Fixpoint dec_go (fuel : nat) (v : Z) (acc : list ascii) : list ascii :=
  match fuel with
  | O => acc
  | S fuel' =>
    let acc := digit (v mod 10) :: acc in
    if v <? 10 then acc else dec_go fuel' (v / 10) acc
  end.

(** Modelled from the spec: vsnprintf is in lib/vsprintf.c, which is not
    part of the sources at hand.  The format "%lu " prints an
    [unsigned long] in decimal (20 digits at most) and a space. *)
Definition fmt_lu (v : Z) : list ascii := dec_go 20 v [] ++ [" "%char].

(** [scnprintf(buf, size, ...)]: the characters that land in the buffer
    (the terminating NUL apart), [size - 1] of them at most; their number is
    what the call returns. *)
Definition scnprintf (size : Z) (text : list ascii) : list ascii :=
  take (Z.to_nat (size - 1)) text.

(** A write at [&buf[cnt]]. *)
Definition write_at (cnt : Z) (text buf : list ascii) : list ascii :=
  take (Z.to_nat cnt) buf ++ text.

(** The loop of [show_table_attr]; [n] iterations left, [None] for a read
    outside the table.  The comparison is the one of [ssize_t] values. *)
Fixpoint show_table_attr_loop (page_size : Z) (attr : em_cap_state → Z)
    (pd : em_perf_domain) (n : nat) (i cnt : Z) (buf : list ascii)
  : option (Z * list ascii) :=
  match n with
  | O => Some (cnt, buf)
  | S n' =>
    if cnt >=? page_size - (EM_ATTR_LEN + 2) then Some (cnt, buf)
    else
      match table pd !! Z.to_nat i with
      | None => None
      | Some cs =>
        let text := scnprintf (EM_ATTR_LEN + 1) (fmt_lu (attr cs)) in
        show_table_attr_loop page_size attr pd n' (i + 1)
          (cnt + Z.of_nat (length text)) (write_at cnt text buf)
      end
  end.

(** The body of the macro: the count returned and the text left in the
    page. *)
Definition show_table_attr (page_size : Z) (attr : em_cap_state → Z)
    (pd : em_perf_domain) (buf : list ascii) : option (Z * list ascii) :=
  match show_table_attr_loop page_size attr pd
          (Z.to_nat (nr_cap_states pd)) 0 0 buf with
  | None => None
  | Some (cnt, buf) =>
    let text := ["010"%char] in
    Some (cnt + Z.of_nat (length text), write_at cnt text buf)
  end.

Definition show_power (page_size : Z) := show_table_attr page_size power.
Definition show_frequency (page_size : Z) := show_table_attr page_size frequency.
Definition show_cost (page_size : Z) := show_table_attr page_size cost.

(** The text of entry [cs] as it lands in the page. *)
Definition attr_text (attr : em_cap_state → Z) (cs : em_cap_state) : list ascii :=
  scnprintf (EM_ATTR_LEN + 1) (fmt_lu (attr cs)).

(** ** States of a running system *)

(** At boot every per-CPU pointer is NULL and there is no kobject; the
    registrations are the only code that touches the registry, while the
    driver and the log live their own life between two calls. *)
Inductive reachable {D : Type} : em_state D → Prop :=
| reach_boot (o : io_state D) : reachable (mk_st ∅ false ∅ o)
| reach_io (s : em_state D) (o : io_state D) :
    reachable s → reachable (set_io o s)
| reach_register e span nr_states cb (s : em_state D) ret s' :
    reachable s → 0 ≤ nr_states < 2 ^ 32 →
    em_register_perf_domain e span nr_states cb s = Ret ret s' →
    reachable s'.

(** A table as the construction leaves it. *)
Definition wf_domain (dom : em_perf_domain) : Prop :=
  0 < nr_cap_states dom < 2 ^ 31 ∧
  Z.of_nat (length (table dom)) = nr_cap_states dom ∧
  ascending (table dom) ∧
  ∀ cs, cs ∈ table dom →
    0 < frequency cs < 2 ^ 64 ∧ 0 < power cs ≤ EM_CPU_MAX_POWER ∧
    0 ≤ cost cs < 2 ^ 64.

(** The sample the callback returns at [(l, o)] passes the three checks of
    the loop. *)
Definition accepts {D : Type} (ap : Z → Z → D → Z * Z * Z * D) (cpu : Z)
    (l : locals) (o : io_state D) : Prop :=
  ∃ ret pw fr d,
    ap (l_freq l) cpu (drv o) = (ret, pw, fr, d) ∧ ret = 0 ∧
    l_prev_freq l < wrap64 fr ∧ 0 < wrap64 pw ≤ EM_CPU_MAX_POWER.

(** The ways [em_register_perf_domain] returns. *)
Inductive outcome {D : Type} (e : env) (span : option cpumask) (nr_states : Z)
    (cb : option (em_data_callback D)) (s : em_state D) (ret : Z) (s' : em_state D)
  : Prop :=
| out_args :
    span = None ∨ nr_states = 0 ∨ cb = None → ret = - EINVAL → s' = s →
    outcome e span nr_states cb s ret s'
| out_nodev mask cbr :
    span = Some mask → cb = Some cbr → nr_states ≠ 0 →
    em_kobject s = false → kobject_create_ok e = false →
    ret = - ENODEV → s' = s →
    outcome e span nr_states cb s ret s'
| out_scan mask cbr :
    span = Some mask → cb = Some cbr → nr_states ≠ 0 →
    em_kobject s = true ∨ kobject_create_ok e = true →
    ret = (em_check_cpus e (em_data s) mask mask 0 (io s)).1 → ret ≠ 0 →
    s' = mk_st (em_data s) true (heap s)
               (em_check_cpus e (em_data s) mask mask 0 (io s)).2 →
    outcome e span nr_states cb s ret s'
| out_create mask cbr :
    span = Some mask → cb = Some cbr → nr_states ≠ 0 →
    em_kobject s = true ∨ kobject_create_ok e = true →
    (em_check_cpus e (em_data s) mask mask 0 (io s)).1 = 0 →
    em_create_pd e mask (to_int nr_states) cbr
      (mk_st (em_data s) true (heap s) (io s)) = Ret None s' →
    ret = - EINVAL →
    outcome e span nr_states cb s ret s'
| out_ok mask cbr pd s1 :
    span = Some mask → cb = Some cbr → nr_states ≠ 0 →
    em_kobject s = true ∨ kobject_create_ok e = true →
    (em_check_cpus e (em_data s) mask mask 0 (io s)).1 = 0 →
    em_create_pd e mask (to_int nr_states) cbr
      (mk_st (em_data s) true (heap s) (io s)) = Ret (Some pd) s1 →
    ret = 0 →
    s' = mk_st (em_publish mask pd (em_data s1)) (em_kobject s1) (heap s1)
               (pr (PrDebugCreated mask) (io s1)) →
    outcome e span nr_states cb s ret s'.

(** The registry as the registrations keep it: a CPU points to a domain
    exactly when the domain lists the CPU, the tables are well formed, and
    there is no domain without the kobject. *)
Definition registry_ok {D : Type} (s : em_state D) : Prop :=
  (∀ cpu pd, em_cpu_get cpu s = Some pd →
     ∃ dm, heap s !! pd = Some dm ∧ cpu ∈ cpus dm) ∧
  (∀ pd dm cpu, heap s !! pd = Some dm → cpu ∈ cpus dm →
     em_cpu_get cpu s = Some pd) ∧
  (∀ pd dm, heap s !! pd = Some dm → wf_domain dm) ∧
  (heap s ≠ ∅ → em_kobject s = true).

(** At [(l, o)] the callback reports the error [r]. *)
Definition rejects_status {D : Type} (ap : Z → Z → D → Z * Z * Z * D) (cpu : Z)
    (l : locals) (o : io_state D) (r : Z) : Prop :=
  ∃ pw fr d, ap (l_freq l) cpu (drv o) = (r, pw, fr, d) ∧ r ≠ 0.

(** At [(l, o)] the callback reports no error and a frequency [f] that is
    not above the previous one. *)
Definition rejects_freq {D : Type} (ap : Z → Z → D → Z * Z * Z * D) (cpu : Z)
    (l : locals) (o : io_state D) (f : Z) : Prop :=
  ∃ ret pw fr d,
    ap (l_freq l) cpu (drv o) = (ret, pw, fr, d) ∧ ret = 0 ∧
    f = wrap64 fr ∧ f ≤ l_prev_freq l.

(** The text of the entries [es], one after the other. *)
Definition table_text (attr : em_cap_state → Z) (es : list em_cap_state)
  : list ascii :=
  concat (attr_text attr <$> es).


(** ** The construction loop *)

Section Loop.

Context {D : Type}.
Implicit Types (ap : Z → Z → D → Z * Z * Z * D) (l : locals) (o : io_state D).

Lemma wrap64_range z : 0 ≤ wrap64 z < 2 ^ 64.
Proof. unfold wrap64. apply Z.mod_pos_bound. lia. Qed.

Lemma wrap64_small z : 0 ≤ z < 2 ^ 64 → wrap64 z = z.
Proof. intros H. unfold wrap64. apply Z.mod_small. lia. Qed.

(** What an iteration that goes through has seen and done. *)
Lemma iter_inr ap cpu l o l' o' :
  em_create_pd_iter ap cpu l o = (inr l', o') →
  ∃ ret pw fr d,
    ap (l_freq l) cpu (drv o) = (ret, pw, fr, d) ∧ ret = 0 ∧
    l_prev_freq l < wrap64 fr ∧ 0 < wrap64 pw ≤ EM_CPU_MAX_POWER ∧
    l' = mk_locals (l_i l + 1) (wrap64 (wrap64 fr + 1)) (wrap64 fr)
           (wrap64 fr / wrap64 pw)
           (alter (λ cs, mk_cs (wrap64 fr) (wrap64 pw) (cost cs))
                  (Z.to_nat (l_i l)) (l_table l)) ∧
    cb_calls o' = cb_calls o ++ [(l_freq l, cpu)] ∧
    drv o' = d ∧
    klog o' = klog o ++
      (if wrap64 fr / wrap64 pw >=? l_prev_opp_eff l
       then [PrWarnRatio cpu (l_i l) (l_i l - 1)] else []).
Proof.
  unfold em_create_pd_iter.
  destruct (ap (l_freq l) cpu (drv o)) as [[[ret pw] fr] d].
  destruct (ret =? 0) eqn:Hret; simpl; [|discriminate].
  destruct (wrap64 fr <=? l_prev_freq l) eqn:Hfr; [discriminate|].
  destruct (wrap64 pw =? 0) eqn:Hp0; simpl; [discriminate|].
  destruct (wrap64 pw >? EM_CPU_MAX_POWER) eqn:Hpm; [discriminate|].
  intros [= <- <-].
  pose proof (wrap64_range pw).
  exists ret, pw, fr, d. repeat split; try lia.
  - destruct (_ >=? _); reflexivity.
  - destruct (_ >=? _); reflexivity.
  - destruct (_ >=? _); simpl; [reflexivity | by rewrite app_nil_r].
Qed.

(** The entries a successful run writes, where it writes them, and the calls
    it makes. *)
Lemma loop_ok ap cpu n : ∀ l o l' o' pre mid post,
  em_create_pd_loop ap cpu n l o = (inr l', o') →
  l_table l = pre ++ mid ++ post →
  length pre = Z.to_nat (l_i l) → 0 ≤ l_i l → length mid = n →
  ∃ es, length es = n ∧ l_table l' = pre ++ es ++ post ∧
        chain (l_prev_freq l) es ∧
        cb_calls o' = cb_calls o ++ probes cpu (l_freq l) es ∧
        l_i l' = l_i l + Z.of_nat n.
Proof.
  induction n as [|n IH]; intros l o l' o' pre mid post Hrun Htbl Hpre Hi Hmid.
  - simpl in Hrun. injection Hrun as <- <-.
    destruct mid; [|discriminate].
    exists []. simpl. rewrite app_nil_r. repeat split; [done | lia].
  - simpl in Hrun.
    destruct (em_create_pd_iter ap cpu l o) as [[err|l1] o1] eqn:Hit; [discriminate|].
    destruct (iter_inr _ _ _ _ _ _ Hit)
      as (ret & pw & fr & d & Hap & -> & Hfr & Hpw & -> & Hcalls & _ & _).
    destruct mid as [|m mid]; [discriminate|].
    injection Hmid as Hmid.
    pose proof (wrap64_range fr) as Hfr64.
    set (new := mk_cs (wrap64 fr) (wrap64 pw) (cost m)).
    destruct (IH _ _ _ _ (pre ++ [new]) mid post Hrun) as (es & Hlen & Htbl' & Hch & Hc & Hi').
    + simpl. rewrite Htbl, <- Hpre.
      replace (length pre) with (length pre + 0)%nat by lia.
      rewrite alter_app_r. simpl. by rewrite <- app_assoc.
    + simpl. rewrite length_app. simpl. lia.
    + simpl. lia.
    + done.
    + exists (new :: es). simpl in *. repeat split; try lia.
      * rewrite Htbl'. by rewrite <- app_assoc.
      * done.
      * rewrite Hc, Hcalls. by rewrite <- app_assoc.
Qed.

End Loop.

(** ** Accepted entries *)

Lemma chain_lower prev es cs :
  chain prev es → cs ∈ es → prev < frequency cs.
Proof.
  revert prev. induction es as [|c es IH]; intros prev Hch Hin.
  - by apply elem_of_nil in Hin.
  - destruct Hch as [[Hf Hp] Hch]. apply elem_of_cons in Hin as [->|Hin]; [lia|].
    specialize (IH _ Hch Hin). lia.
Qed.

Lemma chain_valid prev es cs :
  chain prev es → cs ∈ es →
  frequency cs < 2 ^ 64 ∧ 0 < power cs ≤ EM_CPU_MAX_POWER.
Proof.
  revert prev. induction es as [|c es IH]; intros prev Hch Hin.
  - by apply elem_of_nil in Hin.
  - destruct Hch as [[Hf Hp] Hch]. apply elem_of_cons in Hin as [->|Hin]; [lia|].
    exact (IH _ Hch Hin).
Qed.

Lemma chain_ascending prev es : chain prev es → ascending es.
Proof.
  revert prev. induction es as [|c es IH]; intros prev Hch i a b Ha Hb.
  - discriminate.
  - destruct Hch as [_ Hch]. destruct i as [|i]; simpl in *.
    + injection Ha as <-. apply (chain_lower _ es); [done|].
      by apply list_elem_of_lookup_2 in Hb.
    + exact (IH _ Hch i a b Ha Hb).
Qed.

Lemma chain_last_max prev es lst cs :
  chain prev es → last es = Some lst → cs ∈ es → frequency cs ≤ frequency lst.
Proof.
  revert prev. induction es as [|c es IH]; intros prev Hch Hlast Hin.
  - discriminate.
  - destruct Hch as [_ Hch]. destruct es as [|c' es].
    + injection Hlast as <-. apply list_elem_of_singleton in Hin as ->. lia.
    + change (last (c :: c' :: es)) with (last (c' :: es)) in Hlast.
      apply elem_of_cons in Hin as [->|Hin].
      * assert (frequency c < frequency lst); [|lia].
        apply (chain_lower _ (c' :: es)); [done|].
        rewrite last_lookup in Hlast. by apply list_elem_of_lookup_2 in Hlast.
      * exact (IH _ Hch Hlast Hin).
Qed.

Lemma length_probes cpu f es : length (probes cpu f es) = length es.
Proof. revert f. induction es as [|c es IH]; intros f; simpl; [done|]. by rewrite IH. Qed.

Lemma probes_cpu cpu f es (k : nat) c :
  probes cpu f es !! k = Some c → c.2 = cpu.
Proof.
  revert f k. induction es as [|x es IH]; intros f k; simpl; [discriminate|].
  destruct k as [|k]; simpl; [by intros [= <-] | apply IH].
Qed.

Lemma probes_first cpu f es c :
  probes cpu f es !! 0%nat = Some c → c = (f, cpu).
Proof. destruct es; simpl; [discriminate | by intros [= <-]]. Qed.

Lemma probes_next cpu f es (k : nat) cs c :
  es !! k = Some cs → probes cpu f es !! S k = Some c →
  c = (wrap64 (frequency cs + 1), cpu).
Proof.
  revert f k. induction es as [|x es IH]; intros f k; simpl; [discriminate|].
  destruct k as [|k]; simpl.
  - intros [= ->] Hc. by apply probes_first in Hc.
  - apply IH.
Qed.

(** ** The cost loop *)

Lemma cost_loop_spec fmax n : ∀ i pre mid post,
  0 ≤ i → length pre = Z.to_nat i → length mid = n →
  em_cost_loop fmax n i (pre ++ mid ++ post)
  = pre ++ (set_cost fmax <$> mid) ++ post.
Proof.
  induction n as [|n IH]; intros i pre mid post Hi Hpre Hmid.
  - by destruct mid.
  - destruct mid as [|m mid]; [discriminate|]. injection Hmid as Hmid. simpl.
    rewrite <- Hpre. replace (length pre) with (length pre + 0)%nat by lia.
    rewrite alter_app_r. simpl.
    replace (pre ++ set_cost fmax m :: mid ++ post)
      with ((pre ++ [set_cost fmax m]) ++ mid ++ post) by by rewrite <- app_assoc.
    rewrite IH; [by rewrite <- app_assoc | lia | | done].
    rewrite length_app. simpl. lia.
Qed.

Lemma cost_loop_all fmax tbl :
  em_cost_loop fmax (length tbl) 0 tbl = set_cost fmax <$> tbl.
Proof.
  pose proof (cost_loop_spec fmax (length tbl) 0 [] tbl []) as H.
  rewrite !app_nil_r in H. simpl in H. by apply H.
Qed.

(** ** [em_create_pd] *)

Section CreatePd.

Context {D : Type}.
Implicit Types (s : em_state D) (cb : em_data_callback D).

Lemma loop_init_ok ap cpu n (o o' : io_state D) l' :
  0 ≤ n →
  em_create_pd_loop ap cpu (Z.to_nat n) (loop_init n) o = (inr l', o') →
  ∃ es, length es = Z.to_nat n ∧ l_table l' = es ∧ chain 0 es ∧
        cb_calls o' = cb_calls o ++ probes cpu 0 es.
Proof.
  intros Hn Hrun.
  destruct (loop_ok ap cpu _ _ _ _ _ [] (replicate (Z.to_nat n) (mk_cs 0 0 0)) [] Hrun)
    as (es & Hlen & Htbl & Hch & Hc & _); simpl.
  - by rewrite app_nil_r.
  - done.
  - done.
  - by rewrite length_replicate.
  - exists es. simpl in Htbl. rewrite app_nil_r in Htbl. done.
Qed.

Lemma kcalloc_negative e n : - 2 ^ 31 ≤ n < 0 → kcalloc e n sizeof_em_cap_state = false.
Proof.
  intros Hn. unfold kcalloc, wrap64.
  replace (n mod 2 ^ 64) with (n + 2 ^ 64).
  - destruct (_ >? _) eqn:E; [done|]. exfalso.
    unfold SIZE_MAX, sizeof_em_cap_state in E.
    change ((2 ^ 64 - 1) / 24) with 768614336404564650 in E. lia.
  - apply Z.mod_unique with (q := -1); lia.
Qed.

Lemma fresh_heap_None s : heap s !! fresh (dom (heap s)) = None.
Proof. apply not_elem_of_dom, is_fresh. Qed.

(** A domain that is returned: its table is the accepted entries with their
    costs, at a fresh address; nothing else changes in the heap. *)
Lemma create_pd_Some e span n cb s pd s' :
  em_create_pd e span n cb s = Ret (Some pd) s' →
  ∃ ap es lst,
    active_power cb = Some ap ∧ 0 < n ∧
    length es = Z.to_nat n ∧ chain 0 es ∧ last es = Some lst ∧
    pd = fresh (dom (heap s)) ∧
    heap s' = <[pd := mk_pd (set_cost (frequency lst) <$> es) n span]> (heap s) ∧
    em_data s' = em_data s ∧ em_kobject s' = em_kobject s ∧
    cb_calls (io s') = cb_calls (io s) ++ probes (cpumask_first e span) 0 es.
Proof.
  unfold em_create_pd.
  destruct (active_power cb) as [ap|]; [|discriminate].
  destruct (kzalloc_ok e); simpl; [|discriminate].
  destruct (kcalloc e n sizeof_em_cap_state); simpl; [|discriminate].
  destruct (em_create_pd_loop _ _ _ _ _) as [[err|l] o] eqn:Hrun; [discriminate|].
  destruct (n - 1 <? 0) eqn:Hn; [discriminate|]. apply Z.ltb_ge in Hn.
  destruct (l_table l !! Z.to_nat (n - 1)) as [lst|] eqn:Hlst; [|discriminate].
  intros Heq.
  destruct (loop_init_ok _ _ n _ _ _ ltac:(lia) Hrun) as (es & Hlen & Htbl & Hch & Hc).
  exists ap, es, lst.
  assert (Hlast : last es = Some lst).
  { rewrite last_lookup, Hlen, <- Htbl, <- Hlst. f_equal. lia. }
  assert (Hcost : em_cost_loop (frequency lst) (Z.to_nat n) 0 (l_table l)
                  = set_cost (frequency lst) <$> es).
  { rewrite Htbl, <- Hlen. apply cost_loop_all. }
  rewrite Hcost in Heq.
  destruct (kobject_init_and_add_ret e =? 0); simpl in Heq;
    injection Heq as <- <-; simpl; rewrite insert_insert_eq;
    repeat split; try done; lia.
Qed.

(** A domain that is not returned leaves the heap and the per-CPU pointers as
    they were. *)
Lemma create_pd_None e span n cb s s' :
  em_create_pd e span n cb s = Ret None s' →
  em_data s' = em_data s ∧ heap s' = heap s ∧ em_kobject s' = em_kobject s.
Proof.
  unfold em_create_pd.
  destruct (active_power cb) as [ap|]; [|by intros [= <-]].
  destruct (kzalloc_ok e); simpl; [|by intros [= <-]].
  destruct (kcalloc e n sizeof_em_cap_state); simpl.
  - destruct (em_create_pd_loop _ _ _ _ _) as [[err|l] o] eqn:Hrun.
    + intros [= <-]. simpl. split; [done|]. split; [|done].
      apply delete_insert_id, fresh_heap_None.
    + destruct (n - 1 <? 0); [discriminate|].
      destruct (l_table l !! Z.to_nat (n - 1)); [|discriminate].
      destruct (kobject_init_and_add_ret e =? 0); discriminate.
  - intros [= <-]. simpl. split; [done|]. split; [|done].
    apply delete_insert_id, fresh_heap_None.
Qed.

(** The read of [table[nr_states - 1]] stays inside the table for every count
    that [em_register_perf_domain] passes. *)
Lemma create_pd_no_fault e span n cb s :
  - 2 ^ 31 ≤ n < 2 ^ 31 → n ≠ 0 → em_create_pd e span n cb s ≠ Fault.
Proof.
  intros Hn Hn0. unfold em_create_pd.
  destruct (active_power cb) as [ap|]; [|discriminate].
  destruct (kzalloc_ok e); simpl; [|discriminate].
  destruct (kcalloc e n sizeof_em_cap_state) eqn:Hk; simpl; [|discriminate].
  assert (0 < n) as Hpos.
  { destruct (decide (0 < n)); [done|]. rewrite kcalloc_negative in Hk; [done|lia]. }
  destruct (em_create_pd_loop _ _ _ _ _) as [[err|l] o] eqn:Hrun; [discriminate|].
  destruct (loop_init_ok _ _ n _ _ _ ltac:(lia) Hrun) as (es & Hlen & Htbl & _).
  destruct (n - 1 <? 0) eqn:E; [lia|].
  destruct (l_table l !! Z.to_nat (n - 1)) eqn:Hl.
  - destruct (kobject_init_and_add_ret e =? 0); discriminate.
  - apply lookup_ge_None in Hl. rewrite Htbl in Hl. lia.
Qed.

End CreatePd.

(** ** [em_register_perf_domain] *)

Lemma to_int_range n :
  0 ≤ n < 2 ^ 32 → n ≠ 0 →
  (- 2 ^ 31 ≤ to_int n < 2 ^ 31 ∧ to_int n ≠ 0) ∧
  (0 < to_int n → to_int n = n ∧ n < 2 ^ 31).
Proof.
  intros Hn Hn0. unfold to_int. rewrite Z.mod_small by lia.
  destruct (n <? 2 ^ 31) eqn:E; [apply Z.ltb_lt in E | apply Z.ltb_ge in E]; lia.
Qed.

Section Register.

Context {D : Type}.
Implicit Types (s : em_state D) (cb : option (em_data_callback D))
  (o : io_state D) (m : gmap Z addr).

Lemma publish_notin span pd m cpu :
  cpu ∉ span → em_publish span pd m !! cpu = m !! cpu.
Proof.
  revert m. induction span as [|c span IH]; intros m Hnin; simpl; [done|].
  apply not_elem_of_cons in Hnin as [Hne Hnin].
  rewrite IH by done. by rewrite lookup_insert_ne.
Qed.

Lemma publish_in span pd m cpu :
  cpu ∈ span → em_publish span pd m !! cpu = Some pd.
Proof.
  revert m. induction span as [|c span IH]; intros m Hin; simpl.
  - by apply elem_of_nil in Hin.
  - destruct (decide (cpu ∈ span)) as [Hin'|Hnin]; [by apply IH|].
    apply elem_of_cons in Hin as [->|Hin]; [|done].
    rewrite publish_notin by done. apply lookup_insert_eq.
Qed.

(** The scan of the CPUs returns 0, -EEXIST or -EINVAL. *)
Lemma check_codes e m span full prev o :
  let r := (em_check_cpus e m span full prev o).1 in
  r = 0 ∨ r = - EEXIST ∨ r = - EINVAL.
Proof.
  revert prev. induction span as [|c span IH]; intros prev; simpl; [by left|].
  destruct (m !! c); simpl; [by right; left|].
  destruct (_ && _); simpl; [by right; right | apply IH].
Qed.

(** When it returns 0 it has logged nothing and every CPU of the mask is
    free. *)
Lemma check_zero e m span full prev o :
  (em_check_cpus e m span full prev o).1 = 0 →
  (em_check_cpus e m span full prev o).2 = o ∧ ∀ cpu, cpu ∈ span → m !! cpu = None.
Proof.
  revert prev. induction span as [|c span IH]; intros prev; simpl.
  - intros _. split; [done|]. intros cpu Hin. by apply elem_of_nil in Hin.
  - destruct (m !! c) eqn:Hc; simpl; [discriminate|].
    destruct (_ && _); simpl; [discriminate|].
    intros H. destruct (IH _ H) as [Ho Hfree]. split; [done|].
    intros cpu [->|Hin]%elem_of_cons; [done | by apply Hfree].
Qed.

(** It stops at the first CPU that has a domain when the CPUs before it are
    free and report one capacity. *)
Lemma check_first_registered e m pre c post full prev o :
  (∀ cpu, cpu ∈ pre → m !! cpu = None) → is_Some (m !! c) →
  (∀ c1 c2, c1 ∈ pre → c2 ∈ pre →
     arch_scale_cpu_capacity e c1 = arch_scale_cpu_capacity e c2) →
  (prev = 0 ∨ ∀ c1, c1 ∈ pre → wrap64 (arch_scale_cpu_capacity e c1) = prev) →
  em_check_cpus e m (pre ++ c :: post) full prev o = (- EEXIST, o).
Proof.
  revert prev. induction pre as [|p pre IH]; intros prev Hfree [a Ha] Hcap Hprev; simpl.
  - by rewrite Ha.
  - rewrite (Hfree p) by apply list_elem_of_here.
    assert (negb (prev =? 0) && negb (prev =? wrap64 (arch_scale_cpu_capacity e p)) = false)
      as ->.
    { destruct Hprev as [->|Hprev]; [done|].
      rewrite (Hprev p) by apply list_elem_of_here.
      rewrite Z.eqb_refl. simpl. apply andb_false_r. }
    apply IH.
    + intros cpu Hin. apply Hfree. by apply list_elem_of_further.
    + by exists a.
    + intros c1 c2 H1 H2. apply Hcap; by apply list_elem_of_further.
    + right. intros c1 H1. f_equal. apply Hcap;
        [by apply list_elem_of_further | apply list_elem_of_here].
Qed.


(** A registration that returns 0. *)
Lemma register_ok e span n cb s s' :
  0 ≤ n < 2 ^ 32 →
  em_register_perf_domain e span n cb s = Ret 0 s' →
  ∃ mask cbr ap es lst pd,
    span = Some mask ∧ cb = Some cbr ∧ active_power cbr = Some ap ∧
    0 < n < 2 ^ 31 ∧
    length es = Z.to_nat n ∧ chain 0 es ∧ last es = Some lst ∧
    pd = fresh (dom (heap s)) ∧
    heap s' = <[pd := mk_pd (set_cost (frequency lst) <$> es) n mask]> (heap s) ∧
    em_data s' = em_publish mask pd (em_data s) ∧
    (∀ cpu, cpu ∈ mask → em_data s !! cpu = None) ∧
    cb_calls (io s') = cb_calls (io s) ++ probes (cpumask_first e mask) 0 es.
Proof.
  intros Hn. unfold em_register_perf_domain.
  destruct span as [mask|]; [|discriminate].
  destruct cb as [cbr|]; [|discriminate].
  destruct (n =? 0) eqn:Hn0; [discriminate|]. apply Z.eqb_neq in Hn0.
  destruct (_ && _); [discriminate|]. simpl.
  destruct (em_check_cpus e (em_data s) mask mask 0 (io s)) as [ret o] eqn:Hchk.
  destruct (ret =? 0) eqn:Hret; simpl.
  2:{ intros [= -> _]. done. }
  apply Z.eqb_eq in Hret as ->.
  pose proof (check_zero e (em_data s) mask mask 0 (io s)) as Hz.
  rewrite Hchk in Hz. destruct (Hz eq_refl) as [Ho Hfree]. simpl in Ho. subst o.
  destruct (em_create_pd _ _ _ _ _) as [[pd|] s1|] eqn:Hpd; [|discriminate..].
  intros [= <-].
  apply create_pd_Some in Hpd
    as (ap & es & lst & Hap & Hpos & Hlen & Hch & Hlast & Hfresh & Hheap & Hdata & _ & Hc).
  destruct (to_int_range n Hn Hn0) as [_ Hint]. destruct (Hint Hpos) as [Heq Hlt].
  rewrite Heq in *. simpl in *.
  exists mask, cbr, ap, es, lst, pd. rewrite Hdata. repeat split; try done; lia.
Qed.

(** A registration that fails changes neither the per-CPU pointers nor the
    heap. *)
Lemma register_fail e span n cb s ret s' :
  em_register_perf_domain e span n cb s = Ret ret s' → ret ≠ 0 →
  em_data s' = em_data s ∧ heap s' = heap s.
Proof.
  unfold em_register_perf_domain.
  destruct span as [mask|]; [|by intros [= <- <-]].
  destruct cb as [cbr|]; [|by intros [= <- <-]].
  destruct (n =? 0); [by intros [= <- <-]|].
  destruct (_ && _); [by intros [= <- <-]|]. simpl.
  destruct (em_check_cpus e (em_data s) mask mask 0 (io s)) as [r o].
  destruct (r =? 0); simpl; [|by intros [= <- <-]].
  destruct (em_create_pd _ _ _ _ _) as [[pd|] s1|] eqn:Hpd; [| |discriminate].
  - by intros [= <- <-].
  - intros [= <- <-] _. apply create_pd_None in Hpd as (? & ? & _). done.
Qed.

(** Every call returns. *)
Lemma register_total e span n cb s :
  0 ≤ n < 2 ^ 32 → ∃ ret s', em_register_perf_domain e span n cb s = Ret ret s'.
Proof.
  intros Hn. unfold em_register_perf_domain.
  destruct span as [mask|]; [|by eauto].
  destruct cb as [cbr|]; [|by eauto].
  destruct (n =? 0) eqn:Hn0; [by eauto|]. apply Z.eqb_neq in Hn0.
  destruct (_ && _); [by eauto|]. simpl.
  destruct (em_check_cpus e (em_data s) mask mask 0 (io s)) as [r o].
  destruct (r =? 0); simpl; [|by eauto].
  destruct (to_int_range n Hn Hn0) as [[Hr Hnz] _].
  pose proof (create_pd_no_fault e mask (to_int n) cbr
                (set_io o (mk_st (em_data s) true (heap s) (io s))) Hr Hnz) as Hnf.
  destruct (em_create_pd _ _ _ _ _) as [[pd|] s1|]; [by eauto..|done].
Qed.

End Register.

(** ** The published tables *)

Section Published.

Context {D : Type}.
Implicit Types (s : em_state D) (cb : option (em_data_callback D)).

Lemma lookup_costed fmax (es : list em_cap_state) (i : nat) cs :
  (set_cost fmax <$> es) !! i = Some cs →
  ∃ c0, es !! i = Some c0 ∧ frequency cs = frequency c0 ∧ power cs = power c0 ∧
        cost cs = wrap64 (fmax * power c0) / frequency c0.
Proof.
  rewrite list_lookup_fmap. destruct (es !! i) as [c0|]; simpl; [|discriminate].
  intros [= <-]. by exists c0.
Qed.

Lemma elem_of_costed fmax (es : list em_cap_state) cs :
  cs ∈ set_cost fmax <$> es →
  ∃ c0, c0 ∈ es ∧ frequency cs = frequency c0 ∧ power cs = power c0 ∧
        cost cs = wrap64 (fmax * power c0) / frequency c0.
Proof.
  intros (c0 & -> & Hin)%list_elem_of_fmap. by exists c0.
Qed.

(** What a successful registration leaves behind, in the words of the
    statements below. *)
Lemma register_installed e span n cb s s' :
  0 ≤ n < 2 ^ 32 →
  em_register_perf_domain e span n cb s = Ret 0 s' →
  ∃ mask es lst pd,
    span = Some mask ∧ 0 < n < 2 ^ 31 ∧
    length es = Z.to_nat n ∧ chain 0 es ∧ last es = Some lst ∧
    installed mask s s' pd (mk_pd (set_cost (frequency lst) <$> es) n mask) ∧
    (∀ cpu, cpu ∉ mask → em_cpu_get cpu s' = em_cpu_get cpu s) ∧
    cb_calls (io s') = cb_calls (io s) ++ probes (cpumask_first e mask) 0 es.
Proof.
  intros Hn Hrun.
  destruct (register_ok _ _ _ _ _ _ Hn Hrun)
    as (mask & cbr & ap & es & lst & pd & -> & -> & Hap & Hr & Hlen & Hch & Hlast
        & Hpd & Hheap & Hdata & Hfree & Hcalls).
  exists mask, es, lst, pd. repeat split; try done; try lia.
  - subst pd. apply fresh_heap_None.
  - rewrite Hheap. apply lookup_insert_eq.
  - intros cpu Hin. unfold em_cpu_get. rewrite Hdata. by apply publish_in.
  - intros cpu Hnin. unfold em_cpu_get. rewrite Hdata. by apply publish_notin.
Qed.

(** C1: after a successful registration the published table has exactly
    [nr_states] entries, its frequencies grow strictly from each entry to the
    next, and every frequency is strictly positive. *)
Theorem C1_table_sorted e span nr_states cb s s' :
  0 ≤ nr_states < 2 ^ 32 →
  em_register_perf_domain e span nr_states cb s = Ret 0 s' →
  ∃ mask pd dom,
    span = Some mask ∧ installed mask s s' pd dom ∧
    nr_cap_states dom = nr_states ∧
    Z.of_nat (length (table dom)) = nr_states ∧
    ascending (table dom) ∧
    ∀ cs, cs ∈ table dom → 0 < frequency cs.
Proof.
  intros Hn Hrun.
  destruct (register_installed _ _ _ _ _ _ Hn Hrun)
    as (mask & es & lst & pd & -> & Hr & Hlen & Hch & Hlast & Hinst & _).
  eexists mask, pd, _. split; [done|]. split; [exact Hinst|]. simpl.
  split; [done|]. split; [rewrite length_fmap; lia|]. split.
  - intros i a b (a0 & Ha & Hfa & _)%lookup_costed (b0 & Hb & Hfb & _)%lookup_costed.
    rewrite Hfa, Hfb. exact (chain_ascending _ _ Hch i a0 b0 Ha Hb).
  - intros cs (c0 & Hin & Hf & _)%elem_of_costed. rewrite Hf.
    exact (chain_lower _ _ _ Hch Hin).
Qed.

(** C2 (as amended): after a successful registration the cost of every
    entry is the truncated quotient of (frequency of the last entry * power
    of the entry) reduced modulo 2^64 by the frequency of the entry; it is
    the quotient of the exact product whenever that product is below 2^64. *)
Theorem C2_cost_formula e span nr_states cb s s' :
  0 ≤ nr_states < 2 ^ 32 →
  em_register_perf_domain e span nr_states cb s = Ret 0 s' →
  ∃ mask pd dom lst,
    span = Some mask ∧ installed mask s s' pd dom ∧
    last (table dom) = Some lst ∧
    ∀ cs, cs ∈ table dom →
      cost cs = Z.quot (wrap64 (frequency lst * power cs)) (frequency cs) ∧
      (frequency lst * power cs < 2 ^ 64 →
       cost cs = Z.quot (frequency lst * power cs) (frequency cs)).
Proof.
  intros Hn Hrun.
  destruct (register_installed _ _ _ _ _ _ Hn Hrun)
    as (mask & es & lst & pd & -> & Hr & Hlen & Hch & Hlast & Hinst & _).
  eexists mask, pd, _, (set_cost (frequency lst) lst).
  split; [done|]. split; [exact Hinst|]. simpl.
  split; [by rewrite fmap_last, Hlast|].
  intros cs (c0 & Hin & Hf & Hp & Hc)%elem_of_costed.
  pose proof (chain_lower _ _ _ Hch Hin) as Hpos.
  pose proof (chain_valid _ _ _ Hch Hin) as [_ Hpw].
  assert (0 < frequency lst) as Hlst.
  { apply (chain_lower _ _ _ Hch). rewrite last_lookup in Hlast.
    by apply list_elem_of_lookup_2 in Hlast. }
  rewrite Hc, Hp, Hf.
  pose proof (wrap64_range (frequency lst * power c0)) as Hw.
  split.
  - rewrite Z.quot_div_nonneg; [done | lia | lia].
  - intros Hfit. rewrite wrap64_small by nia.
    rewrite Z.quot_div_nonneg; [done | nia | lia].
Qed.

End Published.

(** ** Failures *)

Section Failures.

Context {D : Type}.
Implicit Types (s : em_state D) (cb : em_data_callback D).

Lemma to_int_small n : 0 ≤ n < 2 ^ 31 → to_int n = n.
Proof.
  intros Hn. unfold to_int. rewrite Z.mod_small by lia.
  destruct (n <? 2 ^ 31) eqn:E; [done | apply Z.ltb_ge in E; lia].
Qed.

Lemma kcalloc_small e n :
  0 ≤ n < 2 ^ 31 → kcalloc e n sizeof_em_cap_state = kcalloc_ok e.
Proof.
  intros Hn. unfold kcalloc. rewrite wrap64_small by lia.
  unfold SIZE_MAX, sizeof_em_cap_state.
  change ((2 ^ 64 - 1) / 24) with 768614336404564650.
  destruct (n >? 768614336404564650) eqn:E; [lia | done].
Qed.

Lemma kobject_available e s :
  em_kobject s = true ∨ kobject_create_ok e = true →
  negb (em_kobject s) && negb (kobject_create_ok e) = false.
Proof. intros [-> | ->]; [done | apply andb_false_r]. Qed.

(** C3: when the checks of the arguments, of the kobject and of the CPUs
    pass, the allocations succeed and the construction of the table stops at
    some index (for any of its three reasons), the registration returns
    -EINVAL, the per-CPU pointers and the heap are what they were, and
    [em_cpu_get] returns NULL for every CPU of the mask. *)
Theorem C3_failed_build_commits_nothing e mask nr_states cb ap s err o' :
  0 < nr_states < 2 ^ 31 →
  active_power cb = Some ap →
  em_kobject s = true ∨ kobject_create_ok e = true →
  (em_check_cpus e (em_data s) mask mask 0 (io s)).1 = 0 →
  kzalloc_ok e = true → kcalloc_ok e = true →
  em_create_pd_loop ap (cpumask_first e mask) (Z.to_nat nr_states)
    (loop_init nr_states) (io s) = (inl err, o') →
  ∃ s', em_register_perf_domain e (Some mask) nr_states (Some cb) s
          = Ret (- EINVAL) s' ∧
        em_data s' = em_data s ∧ heap s' = heap s ∧
        ∀ cpu, cpu ∈ mask → em_cpu_get cpu s' = None.
Proof.
  intros Hn Hap Hko Hchk Hkz Hkc Hloop.
  destruct (check_zero _ _ _ _ _ _ Hchk) as [Ho Hfree].
  unfold em_register_perf_domain.
  destruct (nr_states =? 0) eqn:Hn0; [apply Z.eqb_eq in Hn0; lia|].
  rewrite kobject_available by done. simpl.
  destruct (em_check_cpus e (em_data s) mask mask 0 (io s)) as [ret o] eqn:Hc.
  simpl in Hchk, Ho. subst ret o. simpl.
  rewrite to_int_small by lia.
  unfold em_create_pd. rewrite Hap, Hkz. simpl.
  rewrite kcalloc_small by lia. rewrite Hkc. simpl.
  rewrite Hloop. eexists. split; [reflexivity|]. simpl.
  split; [done|]. split; [apply delete_insert_id, fresh_heap_None|].
  exact Hfree.
Qed.

End Failures.

(** ** The checks of one iteration *)

Section Checks.

Context {D : Type}.
Implicit Types (ap : Z → Z → D → Z * Z * Z * D) (l : locals) (o : io_state D)
  (s : em_state D).

(** The first [k + 1] iterations are the first [k] and one more. *)
Lemma loop_snoc ap cpu k : ∀ l o,
  em_create_pd_loop ap cpu (S k) l o
  = match em_create_pd_loop ap cpu k l o with
    | (inl err, o') => (inl err, o')
    | (inr l', o') => em_create_pd_iter ap cpu l' o'
    end.
Proof.
  induction k as [|k IH]; intros l o.
  - simpl. by destruct (em_create_pd_iter ap cpu l o) as [[err|l'] o'].
  - change (em_create_pd_loop ap cpu (S (S k)) l o)
      with (match em_create_pd_iter ap cpu l o with
            | (inl err, o') => (inl err, o')
            | (inr l', o') => em_create_pd_loop ap cpu (S k) l' o'
            end).
    change (em_create_pd_loop ap cpu (S k) l o)
      with (match em_create_pd_iter ap cpu l o with
            | (inl err, o') => (inl err, o')
            | (inr l', o') => em_create_pd_loop ap cpu k l' o'
            end).
    destruct (em_create_pd_iter ap cpu l o) as [[err|l'] o']; [done | apply IH].
Qed.

(** An iteration stops on the power exactly when the two checks before it
    pass and the power is 0 or above the bound. *)
Lemma iter_invalid_power ap cpu l o c p :
  (em_create_pd_iter ap cpu l o).1 = inl (InvalidPower c p)
  ↔ c = cpu ∧ rejects_power ap cpu l o p.
Proof.
  unfold em_create_pd_iter, rejects_power.
  destruct (ap (l_freq l) cpu (drv o)) as [[[ret pw] fr] d].
  pose proof (wrap64_range pw) as Hpw.
  destruct (ret =? 0) eqn:Hret; simpl.
  2:{ apply Z.eqb_neq in Hret. split; [discriminate|].
      intros (_ & ? & ? & ? & ? & [= <- _ _ _] & ? & _). done. }
  apply Z.eqb_eq in Hret as ->.
  destruct (wrap64 fr <=? l_prev_freq l) eqn:Hfr.
  { apply Z.leb_le in Hfr. split; [discriminate|].
    intros (_ & ? & ? & ? & ? & [= _ _ <- _] & _ & ? & _). lia. }
  apply Z.leb_gt in Hfr.
  destruct (wrap64 pw =? 0) eqn:Hp0; simpl.
  { apply Z.eqb_eq in Hp0. split.
    - intros [= <- <-]. split; [done|]. exists 0, pw, fr, d. repeat split; try done.
      by left.
    - intros (-> & ? & ? & ? & ? & [= _ <- _ _] & _ & _ & -> & _). done. }
  apply Z.eqb_neq in Hp0.
  destruct (wrap64 pw >? EM_CPU_MAX_POWER) eqn:Hpm.
  - split.
    + intros [= <- <-]. split; [done|]. exists 0, pw, fr, d. repeat split; try done.
      right. lia.
    + intros (-> & ? & ? & ? & ? & [= _ <- _ _] & _ & _ & -> & _). done.
  - split; [discriminate|].
    intros (_ & ? & ? & ? & ? & [= _ <- _ _] & _ & _ & -> & [?|?]); lia.
Qed.

(** C5 (as amended): the construction of the table stops on an invalid
    power exactly when, at some index reached without failure, the callback
    reports no error and a frequency above the previous one, and the power
    it returns is 0 or exceeds EM_CPU_MAX_POWER (the checks of the status
    and of the frequency come first).  Consequently every entry of a table
    that is published has a power in 1..EM_CPU_MAX_POWER. *)
Theorem C5_invalid_power :
  (∀ ap cpu n l o c p,
     (em_create_pd_loop ap cpu n l o).1 = inl (InvalidPower c p)
     ↔ c = cpu ∧ ∃ (k : nat) lk ok,
         (k < n)%nat ∧ em_create_pd_loop ap cpu k l o = (inr lk, ok) ∧
         rejects_power ap cpu lk ok p)
  ∧
  (∀ e span nr_states (cb : option (em_data_callback D)) s s',
     0 ≤ nr_states < 2 ^ 32 →
     em_register_perf_domain e span nr_states cb s = Ret 0 s' →
     ∃ mask pd dom,
       span = Some mask ∧ installed mask s s' pd dom ∧
       ∀ cs, cs ∈ table dom → 0 < power cs ≤ EM_CPU_MAX_POWER).
Proof.
  split.
  - intros ap cpu n. induction n as [|n IH]; intros l o c p.
    + simpl. split; [discriminate|]. intros (_ & k & _ & _ & Hk & _). lia.
    + split.
      * simpl. destruct (em_create_pd_iter ap cpu l o) as [[err|l1] o1] eqn:Hit.
        -- simpl. intros [= ->].
           pose proof (proj1 (iter_invalid_power ap cpu l o c p)) as H.
           rewrite Hit in H. destruct (H eq_refl) as [-> Hrej].
           split; [done|]. exists 0%nat, l, o. split; [lia|]. done.
        -- intros (-> & k & lk & ok & Hk & Hrun & Hrej)%IH.
           split; [done|]. exists (S k), lk, ok. split; [lia|].
           simpl. rewrite Hit. done.
      * intros (-> & k & lk & ok & Hk & Hrun & Hrej).
        destruct k as [|k].
        -- simpl in Hrun. injection Hrun as <- <-.
           pose proof (proj2 (iter_invalid_power ap cpu l o cpu p) (conj eq_refl Hrej)) as H.
           simpl. destruct (em_create_pd_iter ap cpu l o) as [[err|l1] o1]; simpl in *;
             [done | discriminate].
        -- simpl in Hrun |- *.
           destruct (em_create_pd_iter ap cpu l o) as [[err|l1] o1]; [discriminate|].
           apply IH. split; [done|]. exists k, lk, ok. split; [lia|]. done.
  - intros e span n cb s s' Hn Hrun.
    destruct (register_installed _ _ _ _ _ _ Hn Hrun)
      as (mask & es & lst & pd & -> & Hr & Hlen & Hch & Hlast & Hinst & _).
    eexists mask, pd, _. split; [done|]. split; [exact Hinst|]. simpl.
    intros cs (c0 & Hin & _ & Hp & _)%elem_of_costed. rewrite Hp.
    by destruct (chain_valid _ _ _ Hch Hin).
Qed.

(** C6: when, after [k] iterations, the callback returns an operating point
    that passes the three checks, the iteration goes through whatever the
    ratio frequency / power is: the entry is written at index [i], [i]
    moves to the next index, [prev_opp_eff] takes the new ratio in every
    case, and the log grows by the warning when the ratio is not below the
    previous one (and by nothing otherwise). *)
Theorem C6_efficiency_warning ap cpu (k : nat) l0 o0 lk ok ret pw fr d :
  em_create_pd_loop ap cpu k l0 o0 = (inr lk, ok) →
  ap (l_freq lk) cpu (drv ok) = (ret, pw, fr, d) →
  ret = 0 → l_prev_freq lk < wrap64 fr → 0 < wrap64 pw ≤ EM_CPU_MAX_POWER →
  ∃ l' o',
    em_create_pd_loop ap cpu (S k) l0 o0 = (inr l', o') ∧
    l_i l' = l_i lk + 1 ∧
    l_table l' = alter (λ cs, mk_cs (wrap64 fr) (wrap64 pw) (cost cs))
                       (Z.to_nat (l_i lk)) (l_table lk) ∧
    l_prev_freq l' = wrap64 fr ∧
    l_prev_opp_eff l' = wrap64 fr / wrap64 pw ∧
    (l_prev_opp_eff lk ≤ wrap64 fr / wrap64 pw →
     klog o' = klog ok ++ [PrWarnRatio cpu (l_i lk) (l_i lk - 1)]) ∧
    (wrap64 fr / wrap64 pw < l_prev_opp_eff lk → klog o' = klog ok).
Proof.
  intros Hrun Hap -> Hfr Hpw.
  rewrite loop_snoc, Hrun. unfold em_create_pd_iter. rewrite Hap. simpl.
  destruct (wrap64 fr <=? l_prev_freq lk) eqn:E1; [apply Z.leb_le in E1; lia|].
  destruct (wrap64 pw =? 0) eqn:E2; [apply Z.eqb_eq in E2; lia|].
  destruct (wrap64 pw >? EM_CPU_MAX_POWER) eqn:E3; [lia|]. simpl.
  eexists _, _. split; [reflexivity|]. simpl. repeat split.
  - intros Hge. destruct (_ >=? _) eqn:E4; [done | lia].
  - intros Hlt. destruct (_ >=? _) eqn:E4; [lia | done].
Qed.

End Checks.

(** ** Sharing, probes and costs *)

Section Sharing.

Context {D : Type}.
Implicit Types (s : em_state D) (cb : option (em_data_callback D)).

(** C7: after a successful registration [em_cpu_get] returns one and the
    same address for every CPU of the mask: the address of the one domain
    the call created; the other CPUs keep what they had. *)
Theorem C7_shared_domain e span nr_states cb s s' :
  0 ≤ nr_states < 2 ^ 32 →
  em_register_perf_domain e span nr_states cb s = Ret 0 s' →
  ∃ mask pd dom,
    span = Some mask ∧ installed mask s s' pd dom ∧
    (∀ c1 c2, c1 ∈ mask → c2 ∈ mask →
       em_cpu_get c1 s' = Some pd ∧ em_cpu_get c2 s' = Some pd) ∧
    (∀ cpu, cpu ∉ mask → em_cpu_get cpu s' = em_cpu_get cpu s).
Proof.
  intros Hn Hrun.
  destruct (register_installed _ _ _ _ _ _ Hn Hrun)
    as (mask & es & lst & pd & -> & Hr & Hlen & Hch & Hlast & Hinst & Hother & _).
  eexists mask, pd, _. split; [done|]. split; [exact Hinst|].
  destruct Hinst as (_ & _ & _ & Hget). split; [|done].
  intros c1 c2 H1 H2. split; by apply Hget.
Qed.

Lemma chain_step prev es (k : nat) a b :
  chain prev es → es !! k = Some a → es !! S k = Some b →
  0 ≤ prev → 0 < frequency a ∧ frequency a + 1 ≤ frequency b < 2 ^ 64.
Proof.
  intros Hch Ha Hb Hprev.
  pose proof (chain_ascending _ _ Hch k a b Ha Hb).
  pose proof (chain_lower _ _ _ Hch (list_elem_of_lookup_2 _ _ _ Ha)).
  pose proof (chain_valid _ _ _ Hch (list_elem_of_lookup_2 _ _ _ Hb)).
  lia.
Qed.

(** C9 (as amended): during a successful registration [active_power] is
    called exactly [nr_states] times, for the first CPU of the mask; the
    first call is made with frequency 0 and each later one with the
    frequency of the entry just written plus 1, so that the frequencies
    handed over grow strictly; every entry has a frequency at or above the
    one handed over to the call that produced it. *)
Theorem C9_probes e span nr_states cb s s' :
  0 ≤ nr_states < 2 ^ 32 →
  em_register_perf_domain e span nr_states cb s = Ret 0 s' →
  ∃ mask pd dom calls,
    span = Some mask ∧ installed mask s s' pd dom ∧
    cb_calls (io s') = cb_calls (io s) ++ calls ∧
    length calls = Z.to_nat nr_states ∧
    length (table dom) = Z.to_nat nr_states ∧
    (∀ (k : nat) c, calls !! k = Some c → c.2 = cpumask_first e mask) ∧
    (∃ c, calls !! 0%nat = Some c ∧ c.1 = 0) ∧
    (∀ (k : nat) cs c, table dom !! k = Some cs → calls !! S k = Some c →
       c.1 = frequency cs + 1) ∧
    (∀ (k : nat) a b, calls !! k = Some a → calls !! S k = Some b → a.1 < b.1) ∧
    (∀ (k : nat) c cs, calls !! k = Some c → table dom !! k = Some cs →
       c.1 ≤ frequency cs).
Proof.
  intros Hn Hrun.
  destruct (register_installed _ _ _ _ _ _ Hn Hrun)
    as (mask & es & lst & pd & -> & Hr & Hlen & Hch & Hlast & Hinst & _ & Hcalls).
  set (cpu := cpumask_first e mask) in *.
  assert (Hentry : ∀ (k : nat) c, probes cpu 0 es !! k = Some c → ∃ cs, es !! k = Some cs).
  { intros k c Hc. apply lookup_lt_Some in Hc. rewrite length_probes in Hc.
    by apply lookup_lt_is_Some_2. }
  assert (Hnext : ∀ (k : nat) c0 c, es !! k = Some c0 → probes cpu 0 es !! S k = Some c →
                  ∃ c1, es !! S k = Some c1 ∧ c.1 = frequency c0 + 1
                        ∧ 0 < frequency c0 ∧ frequency c0 + 1 ≤ frequency c1).
  { intros k c0 c Hc0 Hc. destruct (Hentry _ _ Hc) as [c1 Hc1].
    pose proof (chain_step _ _ _ _ _ Hch Hc0 Hc1 ltac:(lia)) as Hstep.
    rewrite (probes_next _ _ _ _ _ _ Hc0 Hc). simpl.
    exists c1. rewrite wrap64_small by lia. repeat split; try done; lia. }
  eexists mask, pd, _, (probes cpu 0 es).
  split; [done|]. split; [exact Hinst|]. simpl.
  split; [done|]. split; [by rewrite length_probes|].
  split; [by rewrite length_fmap|].
  split; [intros k c Hc; by apply probes_cpu in Hc|].
  split; [|split; [|split]].
  - destruct es as [|c0 es]; [simpl in Hlen; lia|]. by exists (0, cpu).
  - intros k cs c (c0 & Hc0 & Hf & _)%lookup_costed Hc.
    destruct (Hnext _ _ _ Hc0 Hc) as (c1 & _ & -> & _). by rewrite Hf.
  - intros k a b Ha Hb. destruct (Hentry _ _ Ha) as [ca Hca].
    destruct (Hnext _ _ _ Hca Hb) as (cb' & Hcb & -> & Hpos & Hle).
    destruct k as [|k].
    + rewrite (probes_first _ _ _ _ Ha). simpl. lia.
    + destruct (lookup_lt_is_Some_2 es k) as [cp Hcp].
      { apply lookup_lt_Some in Hca. lia. }
      destruct (Hnext _ _ _ Hcp Ha) as (ca' & Hca' & -> & _ & Hle').
      rewrite Hca in Hca'. injection Hca' as <-. lia.
  - intros k c cs Hc (c0 & Hc0 & -> & _)%lookup_costed.
    destruct k as [|k].
    + rewrite (probes_first _ _ _ _ Hc). simpl.
      pose proof (chain_lower _ _ _ Hch (list_elem_of_lookup_2 _ _ _ Hc0)). lia.
    + destruct (lookup_lt_is_Some_2 es k) as [cp Hcp].
      { apply lookup_lt_Some in Hc0. lia. }
      destruct (Hnext _ _ _ Hcp Hc) as (c1 & Hc1 & -> & _ & Hle).
      rewrite Hc0 in Hc1. injection Hc1 as <-. lia.
Qed.

(** C10 (as amended): in a published table every entry for which the
    product (frequency of the last entry * power of the entry) is below 2^64
    has a cost at least equal to its power, and when this holds of the last
    entry its cost is its power. *)
Theorem C10_cost_at_least_power e span nr_states cb s s' :
  0 ≤ nr_states < 2 ^ 32 →
  em_register_perf_domain e span nr_states cb s = Ret 0 s' →
  ∃ mask pd dom lst,
    span = Some mask ∧ installed mask s s' pd dom ∧
    last (table dom) = Some lst ∧
    (∀ cs, cs ∈ table dom → frequency lst * power cs < 2 ^ 64 →
       power cs ≤ cost cs) ∧
    (frequency lst * power lst < 2 ^ 64 → cost lst = power lst).
Proof.
  intros Hn Hrun.
  destruct (register_installed _ _ _ _ _ _ Hn Hrun)
    as (mask & es & lst & pd & -> & Hr & Hlen & Hch & Hlast & Hinst & _).
  eexists mask, pd, _, (set_cost (frequency lst) lst).
  split; [done|]. split; [exact Hinst|]. simpl.
  split; [by rewrite fmap_last, Hlast|].
  assert (lst ∈ es) as Hlin.
  { rewrite last_lookup in Hlast. by apply list_elem_of_lookup_2 in Hlast. }
  pose proof (chain_lower _ _ _ Hch Hlin) as Hlpos.
  pose proof (chain_valid _ _ _ Hch Hlin) as [_ Hlpw].
  split.
  - intros cs (c0 & Hin & Hf & Hp & Hc)%elem_of_costed Hfit.
    pose proof (chain_lower _ _ _ Hch Hin) as Hpos.
    pose proof (chain_valid _ _ _ Hch Hin) as [_ Hpw].
    pose proof (chain_last_max _ _ _ _ Hch Hlast Hin) as Hmax.
    rewrite Hc, Hp in *. rewrite wrap64_small by nia.
    rewrite <- (Z.div_mul (power c0) (frequency c0)) at 1 by lia.
    apply Z.div_le_mono; [lia | nia].
  - intros Hfit. unfold div64_u64. rewrite wrap64_small by nia.
    rewrite Z.mul_comm. apply Z.div_mul. lia.
Qed.

End Sharing.

(** ** The scenarios *)

Example demo_registration :
  em_register_perf_domain demo_env (Some [0; 1]) 4 (Some (demo_cb demo_opps)) st0
  = Ret 0 st1.
Proof. vm_compute. reflexivity. Qed.

Example demo_table :
  table <$> (heap st1 !! 1%positive)
  = Some [mk_cs 100 10 80; mk_cs 200 15 60; mk_cs 400 25 50; mk_cs 800 60 60].
Proof. vm_compute. reflexivity. Qed.

Lemma C1_table_sorted_witness :
  ∃ mask pd dom,
    Some [0; 1] = Some mask ∧ installed mask st0 st1 pd dom ∧
    nr_cap_states dom = 4 ∧
    Z.of_nat (length (table dom)) = 4 ∧
    ascending (table dom) ∧
    ∀ cs, cs ∈ table dom → 0 < frequency cs.
Proof.
  apply (C1_table_sorted demo_env (Some [0; 1]) 4 (Some (demo_cb demo_opps)) st0 st1);
    [lia | vm_compute; reflexivity].
Defined.

(** The overflow of the product: one capacity state at 2^63 with a power of
    2 gets the cost 0. *)
Example huge_registration :
  em_register_perf_domain demo_env (Some [0]) 1 (Some (demo_cb huge_opps)) st0
  = Ret 0 st_huge.
Proof. vm_compute. reflexivity. Qed.

Lemma C2_cost_formula_witness :
  ∃ mask pd dom lst,
    Some [0; 1] = Some mask ∧ installed mask st0 st1 pd dom ∧
    last (table dom) = Some lst ∧
    ∀ cs, cs ∈ table dom →
      cost cs = Z.quot (wrap64 (frequency lst * power cs)) (frequency cs) ∧
      (frequency lst * power cs < 2 ^ 64 →
       cost cs = Z.quot (frequency lst * power cs) (frequency cs)).
Proof.
  apply (C2_cost_formula demo_env (Some [0; 1]) 4 (Some (demo_cb demo_opps)) st0 st1);
    [lia | vm_compute; reflexivity].
Defined.

Lemma C2_exact_cost_counterexample :
  em_register_perf_domain demo_env (Some [0]) 1 (Some (demo_cb huge_opps)) st0
  = Ret 0 st_huge ∧
  ∃ pd dom cs,
    em_cpu_get 0 st_huge = Some pd ∧ heap st_huge !! pd = Some dom ∧
    table dom = [cs] ∧ last (table dom) = Some cs ∧
    frequency cs = 2 ^ 63 ∧ power cs = 2 ∧ cost cs = 0 ∧
    cost cs ≠ Z.quot (frequency cs * power cs) (frequency cs).
Proof.
  split; [vm_compute; reflexivity|].
  exists 1%positive, (mk_pd [mk_cs (2 ^ 63) 2 0] 1 [0]), (mk_cs (2 ^ 63) 2 0).
  repeat split; try (vm_compute; reflexivity).
  vm_compute. discriminate.
Qed.

Lemma C3_failed_build_commits_nothing_witness :
  ∃ s', em_register_perf_domain demo_env (Some [0; 1]) 2 (Some (demo_cb bad_opps)) st0
          = Ret (- EINVAL) s' ∧
        em_data s' = em_data st0 ∧ heap s' = heap st0 ∧
        ∀ cpu, cpu ∈ [0; 1] → em_cpu_get cpu s' = None.
Proof.
  apply (C3_failed_build_commits_nothing demo_env [0; 1] 2 (demo_cb bad_opps)
           (opp_active_power bad_opps) st0 (InvalidPower 0 0)
           (em_create_pd_loop (opp_active_power bad_opps) 0 2 (loop_init 2) io0).2).
  - lia.
  - reflexivity.
  - right. reflexivity.
  - vm_compute. reflexivity.
  - reflexivity.
  - reflexivity.
  - vm_compute. reflexivity.
Defined.


Lemma C5_invalid_power_witness :
  (em_create_pd_loop (opp_active_power bad_opps) 0 2 (loop_init 2) io0).1
    = inl (InvalidPower 0 0) ∧
  ∃ mask pd dom,
    Some [0; 1] = Some mask ∧ installed mask st0 st1 pd dom ∧
    ∀ cs, cs ∈ table dom → 0 < power cs ≤ EM_CPU_MAX_POWER.
Proof.
  split.
  - apply (proj1 C5_invalid_power). split; [reflexivity|].
    exists 1%nat, (mk_locals 1 101 100 10 [mk_cs 100 10 0; mk_cs 0 0 0]),
      (mk_io tt [] [(0, 0)]).
    split; [lia|]. split; [vm_compute; reflexivity|].
    exists 0, 0, 200, tt. repeat split; try (vm_compute; reflexivity). by left.
  - apply (proj2 C5_invalid_power demo_env (Some [0; 1]) 4
             (Some (demo_cb demo_opps)) st0 st1);
      [lia | vm_compute; reflexivity].
Defined.

(** The callback reports no error, frequency 0 and power 0: the loop stops
    on the frequency, not on the power. *)
Lemma C5_frequency_first_counterexample :
  opp_active_power null_opps 0 0 tt = (0, 0, 0, tt) ∧
  (em_create_pd_loop (opp_active_power null_opps) 0 1 (loop_init 1) io0).1
    = inl (NonIncreasingFreq 0 0) ∧
  ∀ c p, (em_create_pd_loop (opp_active_power null_opps) 0 1 (loop_init 1) io0).1
           ≠ inl (InvalidPower c p).
Proof.
  split; [reflexivity|]. split; [vm_compute; reflexivity|].
  intros c p H. vm_compute in H. discriminate.
Qed.

Lemma C6_efficiency_warning_witness :
  ∃ l' o',
    em_create_pd_loop (opp_active_power demo_opps) 0 2 (loop_init 4) io0 = (inr l', o') ∧
    l_i l' = l_i demo_l1 + 1 ∧
    l_table l' = alter (λ cs, mk_cs (wrap64 200) (wrap64 15) (cost cs))
                       (Z.to_nat (l_i demo_l1)) (l_table demo_l1) ∧
    l_prev_freq l' = wrap64 200 ∧
    l_prev_opp_eff l' = wrap64 200 / wrap64 15 ∧
    (l_prev_opp_eff demo_l1 ≤ wrap64 200 / wrap64 15 →
     klog o' = klog demo_o1 ++ [PrWarnRatio 0 (l_i demo_l1) (l_i demo_l1 - 1)]) ∧
    (wrap64 200 / wrap64 15 < l_prev_opp_eff demo_l1 → klog o' = klog demo_o1).
Proof.
  apply (C6_efficiency_warning (opp_active_power demo_opps) 0 1 (loop_init 4) io0
           demo_l1 demo_o1 0 15 200 tt).
  - vm_compute. reflexivity.
  - reflexivity.
  - reflexivity.
  - vm_compute. reflexivity.
  - change (wrap64 15) with 15. unfold EM_CPU_MAX_POWER. lia.
Defined.

Lemma C7_shared_domain_witness :
  ∃ mask pd dom,
    Some [0; 1] = Some mask ∧ installed mask st0 st1 pd dom ∧
    (∀ c1 c2, c1 ∈ mask → c2 ∈ mask →
       em_cpu_get c1 st1 = Some pd ∧ em_cpu_get c2 st1 = Some pd) ∧
    (∀ cpu, cpu ∉ mask → em_cpu_get cpu st1 = em_cpu_get cpu st0).
Proof.
  apply (C7_shared_domain demo_env (Some [0; 1]) 4 (Some (demo_cb demo_opps)) st0 st1);
    [lia | vm_compute; reflexivity].
Defined.


Lemma C9_probes_witness :
  ∃ mask pd dom calls,
    Some [0; 1] = Some mask ∧ installed mask st0 st1 pd dom ∧
    cb_calls (io st1) = cb_calls (io st0) ++ calls ∧
    length calls = Z.to_nat 4 ∧
    length (table dom) = Z.to_nat 4 ∧
    (∀ (k : nat) c, calls !! k = Some c → c.2 = cpumask_first demo_env mask) ∧
    (∃ c, calls !! 0%nat = Some c ∧ c.1 = 0) ∧
    (∀ (k : nat) cs c, table dom !! k = Some cs → calls !! S k = Some c →
       c.1 = frequency cs + 1) ∧
    (∀ (k : nat) a b, calls !! k = Some a → calls !! S k = Some b → a.1 < b.1) ∧
    (∀ (k : nat) c cs, calls !! k = Some c → table dom !! k = Some cs →
       c.1 ≤ frequency cs).
Proof.
  apply (C9_probes demo_env (Some [0; 1]) 4 (Some (demo_cb demo_opps)) st0 st1);
    [lia | vm_compute; reflexivity].
Defined.

(** The second call of the scenario gets the frequency 101, not 1. *)
Lemma C9_floor_counterexample :
  em_register_perf_domain demo_env (Some [0; 1]) 4 (Some (demo_cb demo_opps)) st0
  = Ret 0 st1 ∧
  cb_calls (io st0) = [] ∧
  cb_calls (io st1) = [(0, 0); (101, 0); (201, 0); (401, 0)] ∧
  cb_calls (io st1) !! 1%nat ≠ Some (1, 0).
Proof.
  split; [vm_compute; reflexivity|]. split; [reflexivity|].
  split; [vm_compute; reflexivity|]. vm_compute. discriminate.
Qed.

Lemma C10_cost_at_least_power_witness :
  ∃ mask pd dom lst,
    Some [0; 1] = Some mask ∧ installed mask st0 st1 pd dom ∧
    last (table dom) = Some lst ∧
    (∀ cs, cs ∈ table dom → frequency lst * power cs < 2 ^ 64 →
       power cs ≤ cost cs) ∧
    (frequency lst * power lst < 2 ^ 64 → cost lst = power lst).
Proof.
  apply (C10_cost_at_least_power demo_env (Some [0; 1]) 4
           (Some (demo_cb demo_opps)) st0 st1);
    [lia | vm_compute; reflexivity].
Defined.

Lemma C10_cost_below_power_counterexample :
  em_register_perf_domain demo_env (Some [0]) 1 (Some (demo_cb huge_opps)) st0
  = Ret 0 st_huge ∧
  ∃ pd dom cs,
    em_cpu_get 0 st_huge = Some pd ∧ heap st_huge !! pd = Some dom ∧
    table dom = [cs] ∧ last (table dom) = Some cs ∧
    cost cs < power cs ∧ cost cs ≠ power cs.
Proof.
  split; [vm_compute; reflexivity|].
  exists 1%positive, (mk_pd [mk_cs (2 ^ 63) 2 0] 1 [0]), (mk_cs (2 ^ 63) 2 0).
  repeat split; try (vm_compute; reflexivity).
  vm_compute. discriminate.
Qed.

(** ** Every way a registration can end *)

Section Cases.

Context {D : Type}.
Implicit Types (s : em_state D) (o : io_state D) (m : gmap Z addr).

(** The scan of the CPUs leaves the driver and the list of calls alone. *)
Lemma check_io e m span full prev o :
  drv (em_check_cpus e m span full prev o).2 = drv o ∧
  cb_calls (em_check_cpus e m span full prev o).2 = cb_calls o.
Proof.
  revert prev. induction span as [|c span IH]; intros prev; simpl; [done|].
  destruct (m !! c); simpl; [done|].
  destruct (_ && _); simpl; [done | apply IH].
Qed.

(** One iteration makes one call, for [cpu], with the frequency at hand. *)
Lemma iter_calls ap cpu l o :
  cb_calls (em_create_pd_iter ap cpu l o).2 = cb_calls o ++ [(l_freq l, cpu)].
Proof.
  unfold em_create_pd_iter.
  destruct (ap (l_freq l) cpu (drv o)) as [[[ret pw] fr] d].
  destruct (negb (ret =? 0)); [done|].
  destruct (wrap64 fr <=? l_prev_freq l); [done|].
  destruct (_ || _); [done|].
  destruct (_ >=? _); done.
Qed.

(** A run of [n] iterations makes [n] calls at most, all for [cpu]. *)
Lemma loop_calls ap cpu n : ∀ l o,
  ∃ new, cb_calls (em_create_pd_loop ap cpu n l o).2 = cb_calls o ++ new ∧
         (length new ≤ n)%nat ∧ ∀ c, c ∈ new → c.2 = cpu.
Proof.
  induction n as [|n IH]; intros l o; simpl.
  - exists []. rewrite app_nil_r. split; [done|]. split; [done|].
    intros c Hc. by apply elem_of_nil in Hc.
  - pose proof (iter_calls ap cpu l o) as Hit.
    destruct (em_create_pd_iter ap cpu l o) as [[err|l1] o1]; simpl in *.
    + exists [(l_freq l, cpu)]. split; [done|]. split; [simpl; lia|].
      by intros c ->%list_elem_of_singleton.
    + destruct (IH l1 o1) as (new & Hnew & Hlen & Hcpu).
      exists ((l_freq l, cpu) :: new). rewrite Hnew, Hit, <- app_assoc.
      split; [done|]. split; [simpl; lia|].
      intros c [->|Hc]%elem_of_cons; [done | by apply Hcpu].
Qed.

(** [em_create_pd] calls the driver only from its loop. *)
Lemma create_pd_calls e span n (cb : em_data_callback D) s r s' :
  em_create_pd e span n cb s = Ret r s' →
  ∃ new, cb_calls (io s') = cb_calls (io s) ++ new ∧
         (length new ≤ Z.to_nat n)%nat ∧
         ∀ c, c ∈ new → c.2 = cpumask_first e span.
Proof.
  assert (Hnone : ∃ new : list (Z * Z), cb_calls (io s) = cb_calls (io s) ++ new ∧
            (length new ≤ Z.to_nat n)%nat ∧ ∀ c, c ∈ new → c.2 = cpumask_first e span).
  { exists []. rewrite app_nil_r. split; [done|]. split; [simpl; lia|].
    intros c Hc. by apply elem_of_nil in Hc. }
  unfold em_create_pd.
  destruct (active_power cb) as [ap|]; [|by intros [= _ <-]].
  destruct (kzalloc_ok e); simpl; [|by intros [= _ <-]].
  destruct (kcalloc e n sizeof_em_cap_state); simpl; [|by intros [= _ <-]].
  pose proof (loop_calls ap (cpumask_first e span) (Z.to_nat n) (loop_init n) (io s))
    as Hloop.
  destruct (em_create_pd_loop _ _ _ _ _) as [[err|l] o]; simpl in Hloop.
  - by intros [= _ <-].
  - destruct (n - 1 <? 0); [discriminate|].
    destruct (l_table l !! Z.to_nat (n - 1)); [|discriminate].
    destruct (kobject_init_and_add_ret e =? 0); simpl; by intros [= _ <-].
Qed.

Lemma register_outcome e span n cb s ret s' :
  em_register_perf_domain e span n cb s = Ret ret s' →
  outcome e span n cb s ret s'.
Proof.
  unfold em_register_perf_domain.
  destruct span as [mask|]; [|intros [= <- <-]; apply out_args; auto].
  destruct cb as [cbr|]; [|intros [= <- <-]; apply out_args; auto].
  destruct (n =? 0) eqn:Hn0.
  { apply Z.eqb_eq in Hn0. intros [= <- <-]. apply out_args; auto. }
  apply Z.eqb_neq in Hn0.
  destruct (negb (em_kobject s) && negb (kobject_create_ok e)) eqn:Hko.
  { apply andb_true_iff in Hko as [Hk Hc].
    apply negb_true_iff in Hk. apply negb_true_iff in Hc.
    intros [= <- <-]. by eapply out_nodev. }
  assert (em_kobject s = true ∨ kobject_create_ok e = true) as Hko'.
  { destruct (em_kobject s); [by left|]. destruct (kobject_create_ok e); [by right|].
    discriminate. }
  simpl.
  pose proof (check_zero e (em_data s) mask mask 0 (io s)) as Hz.
  destruct (em_check_cpus e (em_data s) mask mask 0 (io s)) as [r o] eqn:Hchk.
  destruct (r =? 0) eqn:Hr; simpl.
  - apply Z.eqb_eq in Hr. subst r. destruct (Hz eq_refl) as [Ho _].
    simpl in Ho. subst o.
    replace (set_io (io s) (mk_st (em_data s) true (heap s) (io s)))
      with (mk_st (em_data s) true (heap s) (io s)) by done.
    destruct (em_create_pd _ _ _ _ _) as [[pd|] s1|] eqn:Hpd; [| |discriminate];
      intros [= <- <-].
    + eapply out_ok; eauto. by rewrite Hchk.
    + eapply out_create; eauto. by rewrite Hchk.
  - apply Z.eqb_neq in Hr. intros [= <- <-].
    eapply out_scan; eauto; by rewrite Hchk.
Qed.

End Cases.

(** ** What a call does to the registry, whatever its outcome *)

Section Calls.

Context {D : Type}.
Implicit Types (s : em_state D) (cb : option (em_data_callback D)).

(** X1: every call with a count that fits [unsigned int] returns, and
    returns 0, -EINVAL, -ENODEV or -EEXIST; in particular the read of
    [table[nr_states - 1]] never leaves the table. *)
Theorem register_return_codes e span nr_states cb s :
  0 ≤ nr_states < 2 ^ 32 →
  ∃ ret s', em_register_perf_domain e span nr_states cb s = Ret ret s' ∧
            (ret = 0 ∨ ret = - EINVAL ∨ ret = - ENODEV ∨ ret = - EEXIST).
Proof.
  intros Hn. destruct (register_total e span nr_states cb s Hn) as (ret & s' & Hrun).
  exists ret, s'. split; [done|].
  destruct (register_outcome _ _ _ _ _ _ _ Hrun)
    as [| | mask cbr _ _ _ _ Hret Hnz _ | |]; auto.
  pose proof (check_codes e (em_data s) mask mask 0 (io s)) as Hc. simpl in Hc.
  rewrite <- Hret in Hc. destruct Hc as [?|[?|?]]; auto.
Qed.

(** X2: a call that returns an error, whichever it is (bad arguments, no
    kobject, a CPU that has a domain, capacities that differ, a failed
    allocation, a table that is refused), leaves every per-CPU pointer and
    the whole heap as they were: what it allocated is freed. *)
Theorem register_error_keeps_registry e span nr_states cb s ret s' :
  em_register_perf_domain e span nr_states cb s = Ret ret s' → ret ≠ 0 →
  (∀ cpu, em_cpu_get cpu s' = em_cpu_get cpu s) ∧ heap s' = heap s.
Proof.
  intros Hrun Hret. destruct (register_fail _ _ _ _ _ _ _ Hrun Hret) as [Hd Hh].
  split; [|done]. intros cpu. unfold em_cpu_get. by rewrite Hd.
Qed.

(** X3: the slots are written once: whatever the outcome of a call, a CPU
    that had a domain before it has the same one after it, and a domain that
    was in the heap is still there, unchanged. *)
Theorem register_write_once e span nr_states cb s ret s' :
  em_register_perf_domain e span nr_states cb s = Ret ret s' →
  (∀ cpu pd, em_cpu_get cpu s = Some pd → em_cpu_get cpu s' = Some pd) ∧
  (∀ pd dom, heap s !! pd = Some dom → heap s' !! pd = Some dom).
Proof.
  intros Hrun.
  destruct (decide (ret = 0)) as [->|Hret].
  2:{ destruct (register_fail _ _ _ _ _ _ _ Hrun Hret) as [Hd Hh].
      unfold em_cpu_get. rewrite Hd, Hh. done. }
  destruct (register_outcome _ _ _ _ _ _ _ Hrun)
    as [_ ? _| ? ? _ _ _ _ _ ? _ | ? ? _ _ _ _ _ ? _ | ? ? _ _ _ _ _ _ ?
       | mask cbr pd s1 _ _ _ _ Hchk Hpd _ ->]; try done.
  destruct (check_zero _ _ _ _ _ _ Hchk) as [_ Hfree].
  apply create_pd_Some in Hpd
    as (ap & es & lst & _ & _ & _ & _ & _ & Hfresh & Hheap & Hdata & _).
  simpl in *. unfold em_cpu_get. simpl. split.
  - intros cpu p Hp. rewrite Hdata, publish_notin; [done|].
    intros Hin. rewrite (Hfree _ Hin) in Hp. done.
  - intros p dm Hp. rewrite Hheap, lookup_insert_ne; [done|].
    intros <-. subst pd. pose proof (fresh_heap_None s) as Hf.
    rewrite Hf in Hp. done.
Qed.

(** X4: -ENODEV is returned exactly for a call with a mask, a count and a
    callback made when the kobject "energy_model" does not exist and cannot
    be created, and such a call changes nothing.  Once the kobject exists
    it stays, and every call that gets past this point leaves it in place
    even when the call then fails. *)
Theorem register_kobject e span nr_states cb s ret s' :
  em_register_perf_domain e span nr_states cb s = Ret ret s' →
  (ret = - ENODEV ↔
     is_Some span ∧ nr_states ≠ 0 ∧ is_Some cb ∧
     em_kobject s = false ∧ kobject_create_ok e = false) ∧
  (ret = - ENODEV → s' = s) ∧
  (em_kobject s = true → em_kobject s' = true) ∧
  (is_Some span → nr_states ≠ 0 → is_Some cb → ret ≠ - ENODEV →
   em_kobject s' = true).
Proof.
  intros Hrun.
  destruct (register_outcome _ _ _ _ _ _ _ Hrun)
    as [Hbad -> -> | mask cbr -> -> Hn Hk Hc -> ->
       | mask cbr -> -> Hn Hko Hret Hnz ->
       | mask cbr -> -> Hn Hko Hchk Hpd ->
       | mask cbr pd s1 -> -> Hn Hko Hchk Hpd -> ->].
  - repeat split; try done.
    + intros (Hs & Hn & Hc & _). destruct Hbad as [-> | [-> | ->]];
        try done; try (by destruct Hs); try (by destruct Hc).
    + intros Hs Hn Hc. destruct Hbad as [-> | [-> | ->]];
        try done; try (by destruct Hs); try (by destruct Hc).
  - repeat split; try done; try by eexists.
  - pose proof (check_codes e (em_data s) mask mask 0 (io s)) as Hc. simpl in Hc.
    rewrite <- Hret in Hc.
    assert (ret ≠ - ENODEV) by (destruct Hc as [Hc|[Hc|Hc]]; rewrite Hc in *; done).
    repeat split; try done.
    intros (_ & _ & _ & Hk & Hc'). destruct Hko as [Hko|Hko]; congruence.
  - apply create_pd_None in Hpd as (_ & _ & Hk). simpl in Hk.
    repeat split; try done.
    intros (_ & _ & _ & Hk' & Hc'). destruct Hko as [Hko|Hko]; congruence.
  - apply create_pd_Some in Hpd as (_ & _ & _ & _ & _ & _ & _ & _ & _ & _ & _ & Hk & _).
    simpl in Hk |- *. repeat split; try done.
    intros (_ & _ & _ & Hk' & Hc'). destruct Hko as [Hko|Hko]; congruence.
Qed.

(** The kobject after a call. *)
Lemma kobject_after e span nr_states cb s ret s' :
  em_register_perf_domain e span nr_states cb s = Ret ret s' →
  (em_kobject s = true → em_kobject s' = true) ∧ (ret = 0 → em_kobject s' = true).
Proof.
  intros Hrun.
  destruct (register_outcome _ _ _ _ _ _ _ Hrun)
    as [Hbad -> -> | mask cbr -> -> Hn Hk Hc -> ->
       | mask cbr -> -> Hn Hko Hret Hnz ->
       | mask cbr -> -> Hn Hko Hchk Hpd ->
       | mask cbr pd s1 -> -> Hn Hko Hchk Hpd -> ->]; try done.
  - apply create_pd_None in Hpd as (_ & _ & Hk). simpl in Hk. by rewrite Hk.
  - apply create_pd_Some in Hpd as (_ & _ & _ & _ & _ & _ & _ & _ & _ & _ & _ & Hk & _).
    simpl in Hk |- *. by rewrite Hk.
Qed.

(** X5: the driver is not called before every check has passed: a call
    that is turned down for its arguments, for the kobject or by the scan of
    the CPUs (a CPU that has a domain, capacities that differ) makes no call
    of [active_power] and leaves the driver as it was. *)
Theorem register_no_probe_before_checks e span nr_states cb s ret s' :
  em_register_perf_domain e span nr_states cb s = Ret ret s' →
  span = None ∨ nr_states = 0 ∨ cb = None ∨
    ret = - ENODEV ∨ ret = - EEXIST ∨
    (∃ mask, span = Some mask ∧
             (em_check_cpus e (em_data s) mask mask 0 (io s)).1 ≠ 0) →
  cb_calls (io s') = cb_calls (io s) ∧ drv (io s') = drv (io s).
Proof.
  intros Hrun Hwhy.
  destruct (register_outcome _ _ _ _ _ _ _ Hrun)
    as [Hbad -> -> | mask cbr -> -> Hn Hk Hc -> ->
       | mask cbr -> -> Hn Hko Hret Hnz ->
       | mask cbr -> -> Hn Hko Hchk Hpd ->
       | mask cbr pd s1 -> -> Hn Hko Hchk Hpd -> ->]; try done.
  - simpl. destruct (check_io e (em_data s) mask mask 0 (io s)). done.
  - exfalso. destruct Hwhy as [?|[?|[?|[?|[?|(m & [= <-] & Hm)]]]]]; done.
  - exfalso. destruct Hwhy as [?|[?|[?|[?|[?|(m & [= <-] & Hm)]]]]]; done.
Qed.

(** X6: a call makes at most [nr_states] calls of [active_power], all of
    them for the first CPU of the mask, and only adds to the list of the
    calls made so far. *)
Theorem register_probe_count e span nr_states cb s ret s' :
  0 ≤ nr_states < 2 ^ 32 →
  em_register_perf_domain e span nr_states cb s = Ret ret s' →
  ∃ new, cb_calls (io s') = cb_calls (io s) ++ new ∧
         Z.of_nat (length new) ≤ nr_states ∧
         ∀ c, c ∈ new → ∃ mask, span = Some mask ∧ c.2 = cpumask_first e mask.
Proof.
  intros Hn Hrun.
  assert (Hnone : cb_calls (io s') = cb_calls (io s) →
    ∃ new, cb_calls (io s') = cb_calls (io s) ++ new ∧
           Z.of_nat (length new) ≤ nr_states ∧
           ∀ c, c ∈ new → ∃ mask, span = Some mask ∧ c.2 = cpumask_first e mask).
  { intros ->. exists []. rewrite app_nil_r. split; [done|]. split; [simpl; lia|].
    intros c Hc. by apply elem_of_nil in Hc. }
  assert (Hto : Z.of_nat (Z.to_nat (to_int nr_states)) ≤ nr_states).
  { unfold to_int. rewrite Z.mod_small by lia.
    destruct (nr_states <? 2 ^ 31); lia. }
  destruct (register_outcome _ _ _ _ _ _ _ Hrun)
    as [Hbad -> -> | mask cbr -> -> Hn0 Hk Hc -> ->
       | mask cbr -> -> Hn0 Hko Hret Hnz ->
       | mask cbr -> -> Hn0 Hko Hchk Hpd ->
       | mask cbr pd s1 -> -> Hn0 Hko Hchk Hpd -> ->]; try by apply Hnone.
  - apply Hnone. simpl. by destruct (check_io e (em_data s) mask mask 0 (io s)).
  - apply create_pd_calls in Hpd as (new & Hnew & Hlen & Hcpu). simpl in Hnew.
    exists new. split; [done|]. split; [lia|]. intros c Hc. exists mask. auto.
  - apply create_pd_calls in Hpd as (new & Hnew & Hlen & Hcpu). simpl in *.
    exists new. split; [done|]. split; [lia|]. intros c Hc. exists mask. auto.
Qed.

(** X7: a count of 2^31 or more becomes negative in the [int] parameter of
    [em_create_pd] and [kcalloc] refuses it: such a call never succeeds and
    never calls the driver. *)
Theorem register_huge_count e span nr_states cb s ret s' :
  2 ^ 31 ≤ nr_states < 2 ^ 32 →
  em_register_perf_domain e span nr_states cb s = Ret ret s' →
  ret ≠ 0 ∧ cb_calls (io s') = cb_calls (io s) ∧ drv (io s') = drv (io s).
Proof.
  intros Hn Hrun.
  assert (Hneg : - 2 ^ 31 ≤ to_int nr_states < 0).
  { unfold to_int. rewrite Z.mod_small by lia.
    destruct (nr_states <? 2 ^ 31) eqn:E; [apply Z.ltb_lt in E|]; lia. }
  destruct (register_outcome _ _ _ _ _ _ _ Hrun)
    as [Hbad -> -> | mask cbr -> -> Hn0 Hk Hc -> ->
       | mask cbr -> -> Hn0 Hko Hret Hnz ->
       | mask cbr -> -> Hn0 Hko Hchk Hpd ->
       | mask cbr pd s1 -> -> Hn0 Hko Hchk Hpd -> ->]; try done.
  - split; [done|]. simpl. by destruct (check_io e (em_data s) mask mask 0 (io s)).
  - split; [done|]. unfold em_create_pd in Hpd.
    destruct (active_power cbr); [|by injection Hpd as <-].
    destruct (kzalloc_ok e); simpl in Hpd; [|by injection Hpd as <-].
    rewrite kcalloc_negative in Hpd by done. simpl in Hpd. by injection Hpd as <-.
  - apply create_pd_Some in Hpd as (_ & _ & _ & _ & Hpos & _). lia.
Qed.

(** X8: the first registration wins: after a successful registration, a
    call for a mask that starts with a CPU of the registered mask never
    succeeds and leaves the state exactly as it was.  With a count other
    than 0 and a callback it returns -EEXIST, whatever the environment, the
    count and the callback are; with a count of 0 or without a callback it
    is turned down before the scan, with -EINVAL. *)
Theorem register_twice e span nr_states cb s s1 e2 c rest nr_states2 cb2 :
  0 ≤ nr_states < 2 ^ 32 →
  em_register_perf_domain e (Some span) nr_states cb s = Ret 0 s1 →
  c ∈ span →
  ∃ ret,
    em_register_perf_domain e2 (Some (c :: rest)) nr_states2 cb2 s1 = Ret ret s1 ∧
    (nr_states2 ≠ 0 → is_Some cb2 → ret = - EEXIST) ∧
    (nr_states2 = 0 ∨ cb2 = None → ret = - EINVAL).
Proof.
  intros Hn Hrun Hin.
  assert (em_kobject s1 = true) as Hk1.
  { by apply (kobject_after _ _ _ _ _ _ _ Hrun). }
  destruct (register_installed _ _ _ _ _ _ Hn Hrun)
    as (mask & es & lst & pd & [= <-] & _ & _ & _ & _ & (_ & _ & _ & Hget) & _).
  specialize (Hget c Hin). unfold em_cpu_get in Hget.
  unfold em_register_perf_domain.
  destruct cb2 as [cbr|].
  2:{ exists (- EINVAL). split; [done|]. split; [|done]. by intros _ [? ?]. }
  destruct (nr_states2 =? 0) eqn:E.
  { apply Z.eqb_eq in E. exists (- EINVAL). split; [done|]. split; [done|]. done. }
  apply Z.eqb_neq in E. exists (- EEXIST).
  rewrite Hk1. simpl. rewrite Hget. simpl.
  split; [|split; [done|]].
  - destruct s1; simpl in *. by subst.
  - intros [?|?]; done.
Qed.

End Calls.

(** ** The registry of a running system *)

Lemma ascending_le (tbl : list em_cap_state) (d i : nat) a b :
  ascending tbl → tbl !! i = Some a → tbl !! (i + d)%nat = Some b →
  frequency a ≤ frequency b.
Proof.
  intros Hasc. revert b. induction d as [|d IH]; intros b Ha Hb.
  - rewrite Nat.add_0_r, Ha in Hb. injection Hb as <-. lia.
  - destruct (lookup_lt_is_Some_2 tbl (i + d)) as [c Hc].
    { apply lookup_lt_Some in Hb. lia. }
    specialize (IH c Ha Hc).
    replace (i + S d)%nat with (S (i + d)) in Hb by lia.
    pose proof (Hasc _ _ _ Hc Hb). lia.
Qed.

Lemma ascending_last_max (tbl : list em_cap_state) lst cs :
  ascending tbl → last tbl = Some lst → cs ∈ tbl → frequency cs ≤ frequency lst.
Proof.
  intros Hasc Hlast [i Hi]%list_elem_of_lookup_1.
  rewrite last_lookup in Hlast.
  pose proof (lookup_lt_Some _ _ _ Hi) as Hlt.
  apply (ascending_le tbl (pred (length tbl) - i) i); [done..|].
  rewrite <- Hlast. f_equal. lia.
Qed.

Section Running.

Context {D : Type}.
Implicit Types (s : em_state D).

(** The table of a domain that has just been built is well formed. *)
Lemma built_wf es lst n mask :
  0 < n < 2 ^ 31 → length es = Z.to_nat n → chain 0 es →
  wf_domain (mk_pd (set_cost (frequency lst) <$> es) n mask).
Proof.
  intros Hn Hlen Hch. unfold wf_domain. simpl.
  split; [done|]. split; [rewrite length_fmap; lia|]. split.
  - intros i a b (a0 & Ha & Hfa & _)%lookup_costed (b0 & Hb & Hfb & _)%lookup_costed.
    rewrite Hfa, Hfb. exact (chain_ascending _ _ Hch i a0 b0 Ha Hb).
  - intros cs (c0 & Hin & Hf & Hp & Hc)%elem_of_costed.
    pose proof (chain_lower _ _ _ Hch Hin).
    pose proof (chain_valid _ _ _ Hch Hin) as [? ?].
    pose proof (wrap64_range (frequency lst * power c0)) as Hw.
    rewrite Hf, Hp, Hc. split; [lia|]. split; [lia|]. split.
    + apply Z.div_pos; lia.
    + apply Z.div_lt_upper_bound; nia.
Qed.

Lemma register_keeps_registry e span n cb s ret s' :
  0 ≤ n < 2 ^ 32 →
  em_register_perf_domain e span n cb s = Ret ret s' →
  registry_ok s → registry_ok s'.
Proof.
  intros Hn Hrun (Hptr & Hcpus & Hwf & Hko).
  pose proof (kobject_after _ _ _ _ _ _ _ Hrun) as (Hmono & Hset).
  destruct (decide (ret = 0)) as [->|Hret].
  2:{ destruct (register_fail _ _ _ _ _ _ _ Hrun Hret) as [Hd Hh].
      unfold registry_ok, em_cpu_get in *. rewrite Hd, Hh.
      split; [done|]. split; [done|]. split; [done|].
      intros Hne. by apply Hmono, Hko. }
  destruct (register_ok _ _ _ _ _ _ Hn Hrun)
    as (mask & cbr & ap & es & lst & pd & -> & -> & Hap & Hr & Hlen & Hch & Hlast
        & Hpd & Hheap & Hdata & Hfree & _).
  assert (heap s !! pd = None) as Hfresh by (subst pd; apply fresh_heap_None).
  unfold registry_ok, em_cpu_get in *. rewrite Hheap, Hdata.
  split; [|split; [|split]].
  - intros cpu p Hp. destruct (decide (cpu ∈ mask)) as [Hin|Hnin].
    + rewrite publish_in in Hp by done. injection Hp as <-.
      eexists. rewrite lookup_insert_eq. split; [done|]. done.
    + rewrite publish_notin in Hp by done.
      destruct (Hptr _ _ Hp) as (dm & Hdm & Hin). exists dm.
      rewrite lookup_insert_ne; [done|]. intros <-. congruence.
  - intros p dm cpu Hp Hin. destruct (decide (pd = p)) as [<-|Hne].
    + rewrite lookup_insert_eq in Hp. injection Hp as <-. simpl in Hin.
      by apply publish_in.
    + rewrite lookup_insert_ne in Hp by done.
      pose proof (Hcpus _ _ _ Hp Hin) as Hold.
      rewrite publish_notin; [done|]. intros Hm. rewrite (Hfree _ Hm) in Hold. done.
  - intros p dm Hp. destruct (decide (pd = p)) as [<-|Hne].
    + rewrite lookup_insert_eq in Hp. injection Hp as <-.
      apply built_wf; [lia | done | done].
    + rewrite lookup_insert_ne in Hp by done. by eapply Hwf.
  - intros _. by apply Hset.
Qed.

Lemma reachable_registry_ok s : reachable s → registry_ok s.
Proof.
  induction 1 as [o | s o _ IH | e span n cb s ret s' _ IH Hn Hrun].
  - unfold registry_ok, em_cpu_get. simpl.
    split; [|split; [|split]]; [| | |done].
    + intros cpu pd. by rewrite lookup_empty.
    + intros pd dm cpu. by rewrite lookup_empty.
    + intros pd dm. by rewrite lookup_empty.
  - exact IH.
  - by eapply register_keeps_registry.
Qed.

(** X9: in every state reached from boot by registrations, [em_cpu_get]
    returns a domain for a CPU exactly when that domain lists the CPU in its
    [cpus] (no dangling pointer, no CPU left out), and two distinct domains
    have no CPU in common. *)
Theorem reachable_registry_consistent s :
  reachable s →
  (∀ cpu pd, em_cpu_get cpu s = Some pd ↔
             ∃ dm, heap s !! pd = Some dm ∧ cpu ∈ cpus dm) ∧
  (∀ p1 p2 d1 d2 cpu,
     heap s !! p1 = Some d1 → heap s !! p2 = Some d2 →
     cpu ∈ cpus d1 → cpu ∈ cpus d2 → p1 = p2).
Proof.
  intros (Hptr & Hcpus & _ & _)%reachable_registry_ok. split.
  - intros cpu pd. split; [apply Hptr|]. intros (dm & Hdm & Hin). by eapply Hcpus.
  - intros p1 p2 d1 d2 cpu H1 H2 Hin1 Hin2.
    pose proof (Hcpus _ _ _ H1 Hin1) as E1.
    pose proof (Hcpus _ _ _ H2 Hin2) as E2. congruence.
Qed.

(** X10: in every reachable state the domain [em_cpu_get] returns for a CPU
    has a well-formed table: between 1 and 2^31 - 1 entries, exactly
    [nr_cap_states] of them, frequencies strictly increasing, every
    frequency and cost a 64-bit value, every frequency positive and every
    power in 1..EM_CPU_MAX_POWER. *)
Theorem reachable_tables_well_formed s cpu pd :
  reachable s → em_cpu_get cpu s = Some pd →
  ∃ dm, heap s !! pd = Some dm ∧ cpu ∈ cpus dm ∧ wf_domain dm.
Proof.
  intros (Hptr & _ & Hwf & _)%reachable_registry_ok Hget.
  destruct (Hptr _ _ Hget) as (dm & Hdm & Hin). exists dm.
  split; [done|]. split; [done|]. by eapply Hwf.
Qed.

(** X11: in every reachable state the last entry of a table holds the
    highest frequency of the table: the frequency the costs are scaled with
    is the maximum one. *)
Theorem reachable_last_is_max s pd dm :
  reachable s → heap s !! pd = Some dm →
  ∃ lst, last (table dm) = Some lst ∧
         ∀ cs, cs ∈ table dm → frequency cs ≤ frequency lst.
Proof.
  intros (_ & _ & Hwf & _)%reachable_registry_ok Hdm.
  destruct (Hwf _ _ Hdm) as (Hn & Hlen & Hasc & _).
  destruct (last (table dm)) as [lst|] eqn:Hlast.
  - exists lst. split; [done|]. intros cs Hin. by eapply ascending_last_max.
  - apply last_None in Hlast. rewrite Hlast in Hlen. simpl in Hlen. lia.
Qed.

(** X12: in every reachable state a CPU has a domain only if the kobject
    "energy_model" exists. *)
Theorem reachable_kobject s cpu :
  reachable s → is_Some (em_cpu_get cpu s) → em_kobject s = true.
Proof.
  intros (Hptr & _ & _ & Hko)%reachable_registry_ok [pd Hget].
  destruct (Hptr _ _ Hget) as (dm & Hdm & _).
  apply Hko. intros Hempty. rewrite Hempty, lookup_empty in Hdm. done.
Qed.

End Running.

(** ** Success, and the empty mask *)

Section Success.

Context {D : Type}.
Implicit Types (s : em_state D).

(** X13: when the arguments, the kobject, the scan of the CPUs and the two
    allocations are in order and the loop accepts every operating point,
    the registration returns 0, with the table of the loop and its costs at
    a fresh address that every CPU of the mask gets.  What
    [kobject_init_and_add] returns changes the log only: its failure is
    reported by [pr_err] and the domain is published all the same. *)
Theorem register_succeeds e mask nr_states (cb : em_data_callback D) ap s l o' :
  0 < nr_states < 2 ^ 31 →
  active_power cb = Some ap →
  em_kobject s = true ∨ kobject_create_ok e = true →
  (em_check_cpus e (em_data s) mask mask 0 (io s)).1 = 0 →
  kzalloc_ok e = true → kcalloc_ok e = true →
  em_create_pd_loop ap (cpumask_first e mask) (Z.to_nat nr_states)
    (loop_init nr_states) (io s) = (inr l, o') →
  ∃ s' lst,
    em_register_perf_domain e (Some mask) nr_states (Some cb) s = Ret 0 s' ∧
    last (l_table l) = Some lst ∧
    heap s' = <[fresh (dom (heap s)) :=
                  mk_pd (set_cost (frequency lst) <$> l_table l) nr_states mask]>
                (heap s) ∧
    (∀ cpu, cpu ∈ mask → em_cpu_get cpu s' = Some (fresh (dom (heap s)))) ∧
    klog (io s') =
      klog o' ++
      (if kobject_init_and_add_ret e =? 0 then []
       else [PrErrKobject (cpumask_first e mask) (kobject_init_and_add_ret e)]) ++
      [PrDebugCreated mask].
Proof.
  intros Hn Hap Hko Hchk Hkz Hkc Hloop.
  destruct (check_zero _ _ _ _ _ _ Hchk) as [Ho Hfree].
  destruct (loop_init_ok _ _ nr_states _ _ _ ltac:(lia) Hloop)
    as (es & Hlen & Htbl & Hch & _).
  destruct (lookup_lt_is_Some_2 (l_table l) (Z.to_nat (nr_states - 1))) as [lst Hlst].
  { rewrite Htbl. lia. }
  unfold em_register_perf_domain.
  destruct (nr_states =? 0) eqn:Hn0; [apply Z.eqb_eq in Hn0; lia|].
  rewrite kobject_available by done. simpl.
  destruct (em_check_cpus e (em_data s) mask mask 0 (io s)) as [ret o] eqn:Hc.
  simpl in Hchk, Ho. subst ret o. simpl.
  rewrite to_int_small by lia.
  unfold em_create_pd. rewrite Hap, Hkz. simpl.
  rewrite kcalloc_small by lia. rewrite Hkc. simpl.
  rewrite Hloop.
  destruct (nr_states - 1 <? 0) eqn:E; [apply Z.ltb_lt in E; lia|].
  rewrite Hlst.
  replace (em_cost_loop (frequency lst) (Z.to_nat nr_states) 0 (l_table l))
    with (set_cost (frequency lst) <$> l_table l).
  2:{ rewrite <- cost_loop_all. f_equal. rewrite Htbl. lia. }
  assert (Hlast : last (l_table l) = Some lst).
  { rewrite last_lookup, <- Hlst. f_equal. rewrite Htbl. lia. }
  destruct (kobject_init_and_add_ret e =? 0); simpl;
    (eexists _, lst; split; [reflexivity|]; simpl;
     split; [done|]; split; [apply insert_insert_eq|];
     split; [intros cpu Hin; by apply publish_in|];
     rewrite <- ?app_assoc; done).
Qed.

(** X14: a mask without any CPU is not an error.  The scan has nothing to
    refuse, so the call never returns -EEXIST; the driver is asked about
    the CPU [nr_cpumask_bits], which does not exist; no per-CPU pointer
    changes; and when the call returns 0 the heap has one more domain, with
    an empty [cpus], that no registration has handed to a CPU. *)
Theorem register_empty_mask e nr_states (cb : option (em_data_callback D)) s ret s' :
  0 ≤ nr_states < 2 ^ 32 →
  em_register_perf_domain e (Some []) nr_states cb s = Ret ret s' →
  ret ≠ - EEXIST ∧
  (∀ cpu, em_cpu_get cpu s' = em_cpu_get cpu s) ∧
  (∃ new, cb_calls (io s') = cb_calls (io s) ++ new ∧
          ∀ c, c ∈ new → c.2 = nr_cpumask_bits e) ∧
  (ret = 0 →
   ∃ dm, heap s !! fresh (dom (heap s)) = None ∧
         heap s' = <[fresh (dom (heap s)) := dm]> (heap s) ∧ cpus dm = []).
Proof.
  intros Hn Hrun.
  assert (Hnone : cb_calls (io s') = cb_calls (io s) →
    ∃ new, cb_calls (io s') = cb_calls (io s) ++ new ∧
           ∀ c, c ∈ new → c.2 = nr_cpumask_bits e).
  { intros ->. exists []. rewrite app_nil_r. split; [done|].
    intros c Hc. by apply elem_of_nil in Hc. }
  destruct (register_outcome _ _ _ _ _ _ _ Hrun)
    as [Hbad -> -> | mask cbr [= <-] -> Hn0 Hk Hc -> ->
       | mask cbr [= <-] -> Hn0 Hko Hret Hnz ->
       | mask cbr [= <-] -> Hn0 Hko Hchk Hpd ->
       | mask cbr pd s1 [= <-] -> Hn0 Hko Hchk Hpd -> ->].
  - split; [done|]. split; [done|]. split; [by apply Hnone | done].
  - split; [done|]. split; [done|]. split; [by apply Hnone | done].
  - simpl in Hret. done.
  - pose proof (create_pd_calls _ _ _ _ _ _ _ Hpd) as (new & Hnew & _ & Hcpu).
    apply create_pd_None in Hpd as (Hd & _ & _). simpl in *.
    split; [done|]. split; [intros cpu; unfold em_cpu_get; by rewrite Hd|].
    split; [by exists new | done].
  - pose proof (create_pd_calls _ _ _ _ _ _ _ Hpd) as (new & Hnew & _ & Hcpu).
    apply create_pd_Some in Hpd
      as (ap & es & lst & _ & _ & _ & _ & _ & Hfresh & Hheap & Hd & _).
    simpl in *. split; [done|].
    split; [intros cpu; unfold em_cpu_get; simpl; by rewrite Hd|].
    split; [by exists new|]. intros _. eexists.
    split; [apply fresh_heap_None|]. subst pd. split; [exact Hheap | done].
Qed.

End Success.

(** ** Where the loop stops *)

Section Stops.

Context {D : Type}.
Implicit Types (ap : Z → Z → D → Z * Z * Z * D) (l : locals) (o : io_state D).

(** The loop fails with the error of the first iteration that fails. *)
Lemma loop_first_failure ap cpu n : ∀ l o err,
  (em_create_pd_loop ap cpu n l o).1 = inl err
  ↔ ∃ (k : nat) lk ok,
      (k < n)%nat ∧ em_create_pd_loop ap cpu k l o = (inr lk, ok) ∧
      (em_create_pd_iter ap cpu lk ok).1 = inl err.
Proof.
  induction n as [|n IH]; intros l o err.
  - simpl. split; [discriminate|]. intros (k & _ & _ & Hk & _). lia.
  - split.
    + simpl. destruct (em_create_pd_iter ap cpu l o) as [[e1|l1] o1] eqn:Hit.
      * simpl. intros [= ->]. exists 0%nat, l, o.
        split; [lia|]. split; [done|]. by rewrite Hit.
      * intros (k & lk & ok & Hk & Hrun & Hrej)%IH.
        exists (S k), lk, ok. split; [lia|]. simpl. by rewrite Hit.
    + intros (k & lk & ok & Hk & Hrun & Hrej). destruct k as [|k].
      * simpl in Hrun. injection Hrun as <- <-. simpl.
        destruct (em_create_pd_iter ap cpu l o) as [[e1|l1] o1]; simpl in *;
          [done | discriminate].
      * simpl in Hrun |- *.
        destruct (em_create_pd_iter ap cpu l o) as [[e1|l1] o1]; [discriminate|].
        apply IH. exists k, lk, ok. split; [lia|]. done.
Qed.

Lemma iter_invalid_cap_state ap cpu l o c r :
  (em_create_pd_iter ap cpu l o).1 = inl (InvalidCapState c r)
  ↔ c = cpu ∧ rejects_status ap cpu l o r.
Proof.
  unfold em_create_pd_iter, rejects_status.
  destruct (ap (l_freq l) cpu (drv o)) as [[[ret pw] fr] d].
  destruct (ret =? 0) eqn:Hret; simpl.
  - apply Z.eqb_eq in Hret as ->. split.
    + destruct (wrap64 fr <=? l_prev_freq l); [discriminate|].
      destruct (_ || _); discriminate.
    + intros (_ & ? & ? & ? & [= <- _ _ _] & ?). done.
  - apply Z.eqb_neq in Hret. split.
    + intros [= <- <-]. split; [done|]. by exists pw, fr, d.
    + intros (-> & ? & ? & ? & [= <- _ _ _] & _). done.
Qed.

Lemma iter_non_increasing ap cpu l o c f :
  (em_create_pd_iter ap cpu l o).1 = inl (NonIncreasingFreq c f)
  ↔ c = cpu ∧ rejects_freq ap cpu l o f.
Proof.
  unfold em_create_pd_iter, rejects_freq.
  destruct (ap (l_freq l) cpu (drv o)) as [[[ret pw] fr] d].
  destruct (ret =? 0) eqn:Hret; simpl.
  2:{ apply Z.eqb_neq in Hret. split; [discriminate|].
      intros (_ & ? & ? & ? & ? & [= <- _ _ _] & ? & _). done. }
  apply Z.eqb_eq in Hret as ->.
  destruct (wrap64 fr <=? l_prev_freq l) eqn:Hfr.
  - apply Z.leb_le in Hfr. split.
    + intros [= <- <-]. split; [done|]. by exists 0, pw, fr, d.
    + intros (-> & ? & ? & ? & ? & [= _ _ <- _] & _ & -> & _). done.
  - apply Z.leb_gt in Hfr. split.
    + destruct (_ || _); discriminate.
    + intros (_ & ? & ? & ? & ? & [= _ _ <- _] & _ & -> & ?). lia.
Qed.

Lemma iter_accepts ap cpu l o :
  (∃ l' o', em_create_pd_iter ap cpu l o = (inr l', o')) ↔ accepts ap cpu l o.
Proof.
  split.
  - intros (l' & o' & Hit).
    destruct (iter_inr _ _ _ _ _ _ Hit) as (ret & pw & fr & d & Hap & ? & ? & ? & _).
    by exists ret, pw, fr, d.
  - intros (ret & pw & fr & d & Hap & -> & Hfr & Hpw).
    unfold em_create_pd_iter. rewrite Hap. simpl.
    destruct (wrap64 fr <=? l_prev_freq l) eqn:E1; [apply Z.leb_le in E1; lia|].
    destruct (wrap64 pw =? 0) eqn:E2; [apply Z.eqb_eq in E2; lia|].
    destruct (wrap64 pw >? EM_CPU_MAX_POWER) eqn:E3; [lia|]. simpl. eauto.
Qed.

(** X15: the construction stops with "invalid cap. state" exactly when, at
    some index reached without failure, the callback returns a status
    other than 0; the message carries that status and the CPU, and nothing
    the callback left in [*power] or [*freq] is looked at. *)
Theorem loop_stops_on_status ap cpu n l o c r :
  (em_create_pd_loop ap cpu n l o).1 = inl (InvalidCapState c r)
  ↔ c = cpu ∧ ∃ (k : nat) lk ok,
      (k < n)%nat ∧ em_create_pd_loop ap cpu k l o = (inr lk, ok) ∧
      rejects_status ap cpu lk ok r.
Proof.
  rewrite loop_first_failure. split.
  - intros (k & lk & ok & Hk & Hrun & [-> Hrej]%iter_invalid_cap_state).
    split; [done|]. by exists k, lk, ok.
  - intros (-> & k & lk & ok & Hk & Hrun & Hrej). exists k, lk, ok.
    split; [done|]. split; [done|]. by apply iter_invalid_cap_state.
Qed.

(** X16: the construction stops with "non-increasing freq" exactly when, at
    some index reached without failure, the callback reports no error and
    leaves a frequency that is not above the one of the entry before (0 for
    the first entry, so that a frequency of 0 is always refused). *)
Theorem loop_stops_on_frequency ap cpu n l o c f :
  (em_create_pd_loop ap cpu n l o).1 = inl (NonIncreasingFreq c f)
  ↔ c = cpu ∧ ∃ (k : nat) lk ok,
      (k < n)%nat ∧ em_create_pd_loop ap cpu k l o = (inr lk, ok) ∧
      rejects_freq ap cpu lk ok f.
Proof.
  rewrite loop_first_failure. split.
  - intros (k & lk & ok & Hk & Hrun & [-> Hrej]%iter_non_increasing).
    split; [done|]. by exists k, lk, ok.
  - intros (-> & k & lk & ok & Hk & Hrun & Hrej). exists k, lk, ok.
    split; [done|]. split; [done|]. by apply iter_non_increasing.
Qed.

(** X17: the construction runs to its end exactly when the operating point
    the callback returns at each index passes the three checks (status 0,
    frequency above the previous one, power in 1..EM_CPU_MAX_POWER); the
    hertz/watts ratio plays no part in it. *)
Theorem loop_succeeds_iff ap cpu n l o :
  (∃ l' o', em_create_pd_loop ap cpu n l o = (inr l', o'))
  ↔ ∀ (k : nat) lk ok,
      (k < n)%nat → em_create_pd_loop ap cpu k l o = (inr lk, ok) →
      accepts ap cpu lk ok.
Proof.
  induction n as [|n IH].
  - split; [intros _ k lk ok Hk; lia|]. intros _. simpl. eauto.
  - rewrite loop_snoc. split.
    + intros (l' & o' & Hrun) k lk ok Hk Hk'.
      destruct (em_create_pd_loop ap cpu n l o) as [[err|ln] on] eqn:Hn; [discriminate|].
      destruct (decide (k = n)) as [->|Hne].
      * rewrite Hn in Hk'. injection Hk' as <- <-. apply iter_accepts. eauto.
      * apply (proj1 IH (ex_intro _ ln (ex_intro _ on eq_refl)) k); [lia | done].
    + intros Hall.
      destruct (proj2 IH) as (ln & on & Hn).
      { intros k lk ok Hk. apply Hall. lia. }
      rewrite Hn. apply iter_accepts. apply (Hall n); [lia | done].
Qed.

(** X18: at the first index the warning about the hertz/watts ratio (which
    would compare state 0 with a state -1) is logged only for the operating
    point of frequency ULONG_MAX and power 1: [prev_opp_eff] starts at
    ULONG_MAX and no other ratio reaches it. *)
Theorem first_state_warning ap cpu nr_states o l' o' :
  em_create_pd_iter ap cpu (loop_init nr_states) o = (inr l', o') →
  (klog o' = klog o ++ [PrWarnRatio cpu 0 (-1)] ∧
   ∀ cs, l_table l' !! 0%nat = Some cs →
         frequency cs = ULONG_MAX ∧ power cs = 1)
  ∨ (klog o' = klog o ∧ l_prev_opp_eff l' < ULONG_MAX).
Proof.
  intros Hit.
  destruct (iter_inr _ _ _ _ _ _ Hit)
    as (ret & pw & fr & d & Hap & -> & Hfr & Hpw & -> & _ & _ & Hlog).
  simpl in *. pose proof (wrap64_range fr) as Hr. unfold ULONG_MAX in *.
  assert (wrap64 fr / wrap64 pw ≤ wrap64 fr) as Hle.
  { apply Z.div_le_upper_bound; nia. }
  assert (wrap64 pw * (wrap64 fr / wrap64 pw) ≤ wrap64 fr) as Hmul
    by (apply Z.mul_div_le; lia).
  destruct (wrap64 fr / wrap64 pw >=? 2 ^ 64 - 1) eqn:E.
  - left. split; [done|]. intros cs Hcs.
    rewrite list_lookup_alter_eq in Hcs.
    destruct (replicate _ _ !! _) as [c0|]; [|discriminate].
    injection Hcs as <-. simpl. nia.
  - right. rewrite app_nil_r in Hlog. split; [done | lia].
Qed.

End Stops.

(** ** The sysfs attributes *)

Lemma length_attr_text attr cs :
  Z.of_nat (length (attr_text attr cs)) ≤ EM_ATTR_LEN.
Proof.
  unfold attr_text, scnprintf, EM_ATTR_LEN. rewrite length_take.
  change (Z.to_nat (13 + 1 - 1)) with 13%nat. lia.
Qed.

Lemma length_table_text attr es :
  Z.of_nat (length (table_text attr es)) ≤ EM_ATTR_LEN * Z.of_nat (length es).
Proof.
  unfold table_text. induction es as [|cs es IH].
  - simpl. unfold EM_ATTR_LEN. lia.
  - rewrite fmap_cons. change (concat (?x :: ?l)) with (x ++ concat l).
    rewrite length_app, length_cons. pose proof (length_attr_text attr cs).
    unfold EM_ATTR_LEN in *. lia.
Qed.

Lemma table_text_snoc attr es cs :
  table_text attr (es ++ [cs]) = table_text attr es ++ attr_text attr cs.
Proof.
  unfold table_text. rewrite fmap_app, concat_app. simpl. by rewrite app_nil_r.
Qed.

(** What the loop has written when it ends: the text of the first [k]
    entries from index [i] on, [k] being [n] unless the page is full. *)
Lemma show_loop_spec page attr pd n : ∀ i cnt buf r,
  0 ≤ i → 0 ≤ cnt → (Z.to_nat cnt ≤ length buf)%nat →
  show_table_attr_loop page attr pd n i cnt buf = Some r →
  ∃ k : nat, (k ≤ n)%nat ∧
    length (take k (drop (Z.to_nat i) (table pd))) = k ∧
    take (Z.to_nat r.1) r.2
      = take (Z.to_nat cnt) buf
        ++ table_text attr (take k (drop (Z.to_nat i) (table pd))) ∧
    r.1 = cnt + Z.of_nat (length (table_text attr
                                   (take k (drop (Z.to_nat i) (table pd))))) ∧
    ((k < n)%nat → page - (EM_ATTR_LEN + 2) ≤ r.1) ∧
    ∀ j : nat, (j < k)%nat →
      cnt + Z.of_nat (length (table_text attr
                                (take j (drop (Z.to_nat i) (table pd)))))
      < page - (EM_ATTR_LEN + 2).
Proof.
  induction n as [|n IH]; intros i cnt buf r Hi Hcnt Hbuf; simpl.
  - intros [= <-]. exists 0%nat. simpl. rewrite app_nil_r.
    repeat split; try done; try lia; intros j Hj; lia.
  - destruct (cnt >=? page - (EM_ATTR_LEN + 2)) eqn:Hfull.
    { intros [= <-]. exists 0%nat. simpl. rewrite app_nil_r.
      repeat split; try done; try lia; intros j Hj; lia. }
    destruct (table pd !! Z.to_nat i) as [cs|] eqn:Hcs; [|discriminate].
    intros Hrun.
    set (text := scnprintf (EM_ATTR_LEN + 1) (fmt_lu (attr cs))) in *.
    assert (length (write_at cnt text buf) = (Z.to_nat cnt + length text)%nat) as Hlen.
    { unfold write_at. rewrite length_app, length_take. lia. }
    destruct (IH (i + 1) (cnt + Z.of_nat (length text)) (write_at cnt text buf) r)
      as (k & Hk & Hlk & Htxt & Hr & Hstop & Hroom); [lia | lia | lia | done |].
    replace (Z.to_nat (i + 1)) with (S (Z.to_nat i)) in * by lia.
    exists (S k).
    rewrite (drop_S _ _ _ Hcs). simpl.
    change (table_text attr (cs :: ?es)) with (text ++ table_text attr es).
    split; [lia|]. split; [by rewrite Hlk|]. split; [|split; [|split]].
    + rewrite Htxt. rewrite take_ge by lia. unfold write_at. by rewrite <- app_assoc.
    + rewrite Hr, length_app. lia.
    + intros Hlt. apply Hstop. lia.
    + intros [|j] Hj; simpl.
      * lia.
      * change (table_text attr (cs :: ?es)) with (text ++ table_text attr es).
        rewrite length_app. specialize (Hroom j ltac:(lia)). lia.
Qed.

(** The loop reads inside the table when the table holds the entries
    [i .. i + n - 1]. *)
Lemma show_loop_defined page attr pd n : ∀ i cnt buf,
  0 ≤ i → (Z.to_nat i + n ≤ length (table pd))%nat →
  is_Some (show_table_attr_loop page attr pd n i cnt buf).
Proof.
  induction n as [|n IH]; intros i cnt buf Hi Hlen; simpl; [by eexists|].
  destruct (cnt >=? page - (EM_ATTR_LEN + 2)); [by eexists|].
  destruct (lookup_lt_is_Some_2 (table pd) (Z.to_nat i)) as [cs ->]; [lia|].
  apply IH; lia.
Qed.

(** What [show_table_attr] leaves in the page and returns. *)
Lemma show_spec page attr pd buf cnt text :
  show_table_attr page attr pd buf = Some (cnt, text) →
  ∃ k : nat,
    (k ≤ Z.to_nat (nr_cap_states pd))%nat ∧ (k ≤ length (table pd))%nat ∧
    text = table_text attr (take k (table pd)) ++ ["010"%char] ∧
    cnt = Z.of_nat (length text) ∧
    ((k < Z.to_nat (nr_cap_states pd))%nat → page - (EM_ATTR_LEN + 2) ≤ cnt - 1) ∧
    ∀ j : nat, (j < k)%nat →
      Z.of_nat (length (table_text attr (take j (table pd)))) < page - (EM_ATTR_LEN + 2).
Proof.
  unfold show_table_attr.
  destruct (show_table_attr_loop _ _ _ _ _ _ _) as [[c b]|] eqn:Hloop; [|discriminate].
  intros [= <- <-].
  destruct (show_loop_spec _ _ _ _ 0 0 buf _ ltac:(lia) ltac:(lia) ltac:(simpl; lia) Hloop)
    as (k & Hk & Hlk & Htxt & Hc & Hstop & Hroom).
  simpl in *. rewrite drop_0 in *.
  exists k. split; [done|]. split; [rewrite <- Hlk, length_take; lia|].
  unfold write_at. rewrite Htxt.
  split; [done|]. split; [rewrite length_app; simpl; lia|].
  split; [intros Hlt; specialize (Hstop Hlt); lia|].
  intros j Hj. specialize (Hroom j Hj). lia.
Qed.

(** The text of a prefix that the loop has written leaves room for the
    newline and the NUL. *)
Lemma prefix_fits page attr (tbl : list em_cap_state) (k : nat) :
  2 ≤ page → (k ≤ length tbl)%nat →
  (∀ j : nat, (j < k)%nat →
     Z.of_nat (length (table_text attr (take j tbl))) < page - (EM_ATTR_LEN + 2)) →
  Z.of_nat (length (table_text attr (take k tbl))) + 2 ≤ page.
Proof.
  intros Hpage Hk Hroom. destruct k as [|j]; [simpl; lia|].
  destruct (lookup_lt_is_Some_2 tbl j) as [cs Hcs]; [lia|].
  rewrite (take_S_r _ _ _ Hcs), table_text_snoc, length_app.
  specialize (Hroom j ltac:(lia)). pose proof (length_attr_text attr cs).
  unfold EM_ATTR_LEN in *. lia.
Qed.

(** When every entry has room, the loop goes through the whole table. *)
Lemma show_full page attr pd buf cnt text :
  Z.of_nat (length (table pd)) = nr_cap_states pd →
  13 * (nr_cap_states pd - 1) < page - 15 →
  show_table_attr page attr pd buf = Some (cnt, text) →
  cnt = Z.of_nat (length (table_text attr (table pd))) + 1 ∧
  text = table_text attr (table pd) ++ ["010"%char].
Proof.
  intros Hlen Hfit (k & Hk & Hkt & -> & -> & Hstop & _)%show_spec.
  assert (k = length (table pd)) as ->.
  { destruct (decide (k < Z.to_nat (nr_cap_states pd))%nat) as [Hlt|]; [|lia].
    specialize (Hstop Hlt). rewrite length_app in Hstop. simpl in Hstop.
    pose proof (length_table_text attr (take k (table pd))) as Hle.
    rewrite length_take in Hle. unfold EM_ATTR_LEN in *. lia. }
  rewrite firstn_all, length_app. simpl. split; [lia | done].
Qed.

Lemma show_defined page attr pd buf :
  nr_cap_states pd ≤ Z.of_nat (length (table pd)) →
  is_Some (show_table_attr page attr pd buf).
Proof.
  intros Hlen. unfold show_table_attr.
  destruct (show_loop_defined page attr pd (Z.to_nat (nr_cap_states pd)) 0 0 buf)
    as [[c b] ->]; [lia | simpl; lia |]. by eexists.
Qed.

(** X19: whatever the table holds, the text a show function leaves in the
    page ends with a newline, the count returned is the length of that
    text, and the text with its terminating NUL fits in the page: the
    function never writes past [PAGE_SIZE]. *)
Theorem show_fits_page page_size attr pd buf cnt text :
  2 ≤ page_size < 2 ^ 63 →
  show_table_attr page_size attr pd buf = Some (cnt, text) →
  cnt = Z.of_nat (length text) ∧ cnt + 1 ≤ page_size ∧
  last text = Some "010"%char.
Proof.
  intros Hpage (k & Hk & Hkt & -> & -> & _ & Hroom)%show_spec.
  split; [done|]. split; [|apply last_snoc].
  rewrite length_app. simpl.
  pose proof (prefix_fits page_size attr (table pd) k ltac:(lia) Hkt Hroom). lia.
Qed.

(** X20: the text is the entries of the table in table order, each as
    scnprintf leaves it, up to the first index at which the text has reached
    PAGE_SIZE - 15 characters; the entries from that index on are left out
    without any mark. *)
Theorem show_prints_prefix page_size attr pd buf cnt text :
  0 ≤ page_size < 2 ^ 63 →
  show_table_attr page_size attr pd buf = Some (cnt, text) →
  ∃ k : nat,
    (k ≤ Z.to_nat (nr_cap_states pd))%nat ∧ (k ≤ length (table pd))%nat ∧
    text = table_text attr (take k (table pd)) ++ ["010"%char] ∧
    ((k < Z.to_nat (nr_cap_states pd))%nat →
     page_size - 15 ≤ Z.of_nat (length (table_text attr (take k (table pd))))) ∧
    ∀ j : nat, (j < k)%nat →
      Z.of_nat (length (table_text attr (take j (table pd)))) < page_size - 15.
Proof.
  intros _ (k & Hk & Hkt & -> & -> & Hstop & Hroom)%show_spec.
  exists k. split; [done|]. split; [done|]. split; [done|]. split; [|done].
  intros Hlt. specialize (Hstop Hlt). rewrite length_app in Hstop. simpl in Hstop.
  unfold EM_ATTR_LEN in Hstop. lia.
Qed.

(** X21: a table whose [nr_cap_states] entries are all there and satisfy
    13 * (nr_cap_states - 1) < PAGE_SIZE - 15 (314 entries at most in a page
    of 4096 bytes) is printed in full. *)
Theorem show_prints_all page_size attr pd buf :
  0 ≤ page_size < 2 ^ 63 →
  Z.of_nat (length (table pd)) = nr_cap_states pd →
  13 * (nr_cap_states pd - 1) < page_size - 15 →
  show_table_attr page_size attr pd buf
  = Some (Z.of_nat (length (table_text attr (table pd))) + 1,
          table_text attr (table pd) ++ ["010"%char]).
Proof.
  intros _ Hlen Hfit.
  destruct (show_defined page_size attr pd buf) as [[cnt text] Hshow]; [lia|].
  destruct (show_full _ _ _ _ _ _ Hlen Hfit Hshow) as [-> ->]. done.
Qed.

(** ** Decimal texts *)

Lemma dec_go_length_acc fuel : ∀ v acc,
  (length acc ≤ length (dec_go fuel v acc))%nat.
Proof.
  induction fuel as [|fuel IH]; intros v acc; simpl; [done|].
  destruct (v <? 10); [simpl; lia|].
  specialize (IH (v / 10) (digit (v mod 10) :: acc)). simpl in IH. lia.
Qed.

(** A value below 10^k has [k] digits at most. *)
Lemma dec_go_length_le fuel : ∀ v acc (k : nat),
  (1 ≤ k ≤ fuel)%nat → 0 ≤ v < 10 ^ Z.of_nat k →
  (length (dec_go fuel v acc) ≤ k + length acc)%nat.
Proof.
  induction fuel as [|fuel IH]; intros v acc k Hk Hv; [lia|]. simpl.
  destruct (v <? 10) eqn:E; [simpl; lia|]. apply Z.ltb_ge in E.
  destruct k as [|[|k]]; [lia | simpl in Hv; lia |].
  rewrite Nat2Z.inj_succ, Z.pow_succ_r in Hv by lia.
  specialize (IH (v / 10) (digit (v mod 10) :: acc) (S k) ltac:(lia)).
  simpl in IH. etrans; [apply IH|lia].
  split; [apply Z.div_pos; lia|]. apply Z.div_lt_upper_bound; lia.
Qed.

(** A value of 10^(k-1) or more has [k] digits at least. *)
Lemma dec_go_length_ge fuel : ∀ v acc (k : nat),
  (1 ≤ k ≤ fuel)%nat → 10 ^ Z.of_nat (k - 1) ≤ v →
  (k + length acc ≤ length (dec_go fuel v acc))%nat.
Proof.
  induction fuel as [|fuel IH]; intros v acc k Hk Hv; [lia|]. simpl.
  destruct k as [|[|k]]; [lia | |].
  - destruct (v <? 10); [simpl; lia|].
    pose proof (dec_go_length_acc fuel (v / 10) (digit (v mod 10) :: acc)) as H.
    simpl in H. lia.
  - replace (S (S k) - 1)%nat with (S k) in Hv by lia.
    rewrite Nat2Z.inj_succ, Z.pow_succ_r in Hv by lia.
    assert (0 < 10 ^ Z.of_nat k) by (apply Z.pow_pos_nonneg; lia).
    destruct (v <? 10) eqn:E; [apply Z.ltb_lt in E; lia|].
    specialize (IH (v / 10) (digit (v mod 10) :: acc) (S k) ltac:(lia)).
    simpl in IH. etrans; [|apply IH]; [lia|].
    replace (k - 0)%nat with k by lia. apply Z.div_le_lower_bound; lia.
Qed.

Lemma digit_not_space d : 0 ≤ d < 10 → digit d ≠ " "%char.
Proof.
  intros Hd.
  assert (d = 0 ∨ d = 1 ∨ d = 2 ∨ d = 3 ∨ d = 4 ∨ d = 5 ∨ d = 6 ∨ d = 7 ∨ d = 8 ∨ d = 9)
    as Hcases by lia.
  repeat (destruct Hcases as [->|Hcases]; [vm_compute; discriminate|]).
  subst. vm_compute. discriminate.
Qed.

Lemma dec_go_no_space fuel : ∀ v acc,
  " "%char ∉ acc → " "%char ∉ dec_go fuel v acc.
Proof.
  induction fuel as [|fuel IH]; intros v acc Hacc; simpl; [done|].
  assert (" "%char ∉ digit (v mod 10) :: acc) as Hacc'.
  { apply not_elem_of_cons. split; [|done].
    apply not_eq_sym, digit_not_space, Z.mod_pos_bound. lia. }
  destruct (v <? 10); [done | by apply IH].
Qed.

(** A text of 13 characters at most goes through scnprintf unchanged. *)
Lemma scnprintf_small v :
  0 ≤ v < 10 ^ 12 →
  scnprintf (EM_ATTR_LEN + 1) (fmt_lu v) = fmt_lu v.
Proof.
  intros Hv. unfold scnprintf, fmt_lu, EM_ATTR_LEN.
  change (Z.to_nat (13 + 1 - 1)) with 13%nat.
  apply take_ge. rewrite length_app.
  change (length [" "%char]) with 1%nat.
  assert (0 ≤ v < 10 ^ Z.of_nat 12) as Hr by (change (Z.of_nat 12) with 12; lia).
  pose proof (dec_go_length_le 20 v [] 12 ltac:(lia) Hr) as H.
  rewrite Nat.add_0_r in H. lia.
Qed.

(** X22: scnprintf with a size of 14 leaves a value below 10^12 as its
    decimal digits followed by the space.  A value of 10^12 or more is cut
    to its first 13 digits: what follows is lost and no space separates it
    from the next entry. *)
Theorem scnprintf_full_or_cut v :
  0 ≤ v < 2 ^ 64 →
  (v < 10 ^ 12 →
   scnprintf (EM_ATTR_LEN + 1) (fmt_lu v) = dec_go 20 v [] ++ [" "%char]) ∧
  (10 ^ 12 ≤ v →
   scnprintf (EM_ATTR_LEN + 1) (fmt_lu v) = take 13 (dec_go 20 v []) ∧
   length (scnprintf (EM_ATTR_LEN + 1) (fmt_lu v)) = 13%nat ∧
   " "%char ∉ scnprintf (EM_ATTR_LEN + 1) (fmt_lu v)).
Proof.
  intros Hv. split.
  - intros Hsmall. apply scnprintf_small. lia.
  - intros Hbig. unfold scnprintf, fmt_lu, EM_ATTR_LEN.
    change (Z.to_nat (13 + 1 - 1)) with 13%nat.
    assert (10 ^ Z.of_nat (13 - 1) ≤ v) as Hr
      by (change (Z.of_nat (13 - 1)) with 12; lia).
    pose proof (dec_go_length_ge 20 v [] 13 ltac:(lia) Hr) as H.
    rewrite Nat.add_0_r in H. rewrite take_app_le by lia.
    split; [done|]. split; [rewrite length_take; lia|].
    intros Hin. apply (dec_go_no_space 20 v []); [by intros ?%elem_of_nil|].
    by apply (subseteq_take 13 (dec_go 20 v [])).
Qed.

(** ** The attributes of the registered domains *)

Section Attributes.

Context {D : Type}.
Implicit Types (s : em_state D).

(** X23: in every reachable state, a show function run on the domain of a
    CPU reads inside the table (the [nr_cap_states] it loops over is the
    number of entries the table has) and returns a text that fits in the
    page with its NUL. *)
Theorem reachable_show_safe s cpu pd page_size attr buf :
  reachable s → em_cpu_get cpu s = Some pd →
  2 ≤ page_size < 2 ^ 63 →
  ∃ dm cnt text,
    heap s !! pd = Some dm ∧
    show_table_attr page_size attr dm buf = Some (cnt, text) ∧
    cnt = Z.of_nat (length text) ∧ cnt + 1 ≤ page_size.
Proof.
  intros (Hptr & _ & Hwf & _)%reachable_registry_ok Hget Hpage.
  destruct (Hptr _ _ Hget) as (dm & Hdm & _).
  destruct (Hwf _ _ Hdm) as (_ & Hlen & _).
  destruct (show_defined page_size attr dm buf) as [[cnt text] Hshow]; [lia|].
  exists dm, cnt, text. split; [done|]. split; [done|].
  destruct (show_spec _ _ _ _ _ _ Hshow) as (k & Hk & Hkt & -> & -> & _ & Hroom).
  split; [done|]. rewrite length_app. simpl.
  pose proof (prefix_fits page_size attr (table dm) k ltac:(lia) Hkt Hroom). lia.
Qed.

(** X24: after a successful registration of a table that fits in the page,
    [show_power] prints every power of the published table in full, in
    table order: its decimal digits and a space for each entry, then the
    newline.  (A power has 5 digits at most, so none is cut.) *)
Theorem show_power_published e span nr_states
    (cb : option (em_data_callback D)) s s' page_size buf :
  0 ≤ nr_states < 2 ^ 32 →
  em_register_perf_domain e span nr_states cb s = Ret 0 s' →
  0 ≤ page_size < 2 ^ 63 → 13 * (nr_states - 1) < page_size - 15 →
  ∃ mask pd dm cnt,
    span = Some mask ∧ installed mask s s' pd dm ∧
    show_power page_size dm buf
    = Some (cnt, concat ((λ cs, dec_go 20 (power cs) [] ++ [" "%char]) <$> table dm)
                 ++ ["010"%char]).
Proof.
  intros Hn Hrun Hpage Hfit.
  destruct (register_installed _ _ _ _ _ _ Hn Hrun)
    as (mask & es & lst & pd & -> & Hr & Hlen & Hch & Hlast & Hinst & _).
  set (dm := mk_pd (set_cost (frequency lst) <$> es) nr_states mask) in *.
  assert (Z.of_nat (length (table dm)) = nr_cap_states dm) as Hlen'.
  { simpl. rewrite length_fmap. lia. }
  unfold show_power.
  destruct (show_defined page_size power dm buf) as [[cnt text] Hshow]; [lia|].
  destruct (show_full _ _ _ _ _ _ Hlen' Hfit Hshow) as [-> ->].
  exists mask, pd, dm. eexists. split; [done|]. split; [exact Hinst|].
  rewrite Hshow. do 3 f_equal. unfold table_text. f_equal.
  apply list_fmap_ext. intros i cs Hcs. unfold attr_text.
  apply list_elem_of_lookup_2 in Hcs.
  destruct (elem_of_costed _ _ _ Hcs) as (c0 & Hin & _ & Hp & _).
  destruct (chain_valid _ _ _ Hch Hin) as [_ Hpw].
  apply scnprintf_small. unfold EM_CPU_MAX_POWER in Hpw. lia.
Qed.

End Attributes.

(** ** The scenarios, continued *)

Lemma register_return_codes_witness :
  ∃ ret s',
    em_register_perf_domain demo_env (Some [0; 1]) 4 (Some (demo_cb demo_opps)) st0
      = Ret ret s' ∧
    (ret = 0 ∨ ret = - EINVAL ∨ ret = - ENODEV ∨ ret = - EEXIST).
Proof.
  apply (register_return_codes demo_env (Some [0; 1]) 4 (Some (demo_cb demo_opps)) st0).
  lia.
Defined.

Lemma register_error_keeps_registry_witness :
  (∀ cpu, em_cpu_get cpu st_bad = em_cpu_get cpu st0) ∧ heap st_bad = heap st0.
Proof.
  apply (register_error_keeps_registry demo_env (Some [0; 1]) 2
           (Some (demo_cb bad_opps)) st0 (- EINVAL) st_bad).
  - vm_compute. reflexivity.
  - discriminate.
Defined.

Lemma register_write_once_witness :
  (∀ cpu pd, em_cpu_get cpu st1 = Some pd → em_cpu_get cpu st2 = Some pd) ∧
  (∀ pd dm, heap st1 !! pd = Some dm → heap st2 !! pd = Some dm).
Proof.
  apply (register_write_once demo_env (Some [2; 3]) 1 (Some (demo_cb demo_opps))
           st1 0 st2).
  vm_compute. reflexivity.
Defined.

Lemma register_kobject_witness :
  (0 = - ENODEV ↔
     is_Some (Some [0; 1]) ∧ 4 ≠ 0 ∧ is_Some (Some (demo_cb demo_opps)) ∧
     em_kobject st0 = false ∧ kobject_create_ok demo_env = false) ∧
  (0 = - ENODEV → st1 = st0) ∧
  (em_kobject st0 = true → em_kobject st1 = true) ∧
  (is_Some (Some [0; 1]) → 4 ≠ 0 → is_Some (Some (demo_cb demo_opps)) →
   0 ≠ - ENODEV → em_kobject st1 = true).
Proof.
  apply (register_kobject demo_env (Some [0; 1]) 4 (Some (demo_cb demo_opps)) st0 0 st1).
  vm_compute. reflexivity.
Defined.

Lemma register_no_probe_before_checks_witness :
  cb_calls (io st_het) = cb_calls (io st0) ∧ drv (io st_het) = drv (io st0).
Proof.
  apply (register_no_probe_before_checks het_env (Some [0; 1]) 4
           (Some (demo_cb demo_opps)) st0 (- EINVAL) st_het).
  - vm_compute. reflexivity.
  - do 5 right. exists [0; 1]. split; [reflexivity|]. vm_compute. discriminate.
Defined.

Lemma register_probe_count_witness :
  ∃ new, cb_calls (io st_bad) = cb_calls (io st0) ++ new ∧
         Z.of_nat (length new) ≤ 2 ∧
         ∀ c, c ∈ new →
           ∃ mask, Some [0; 1] = Some mask ∧ c.2 = cpumask_first demo_env mask.
Proof.
  apply (register_probe_count demo_env (Some [0; 1]) 2 (Some (demo_cb bad_opps))
           st0 (- EINVAL) st_bad).
  - lia.
  - vm_compute. reflexivity.
Defined.

Lemma register_huge_count_witness :
  - EINVAL ≠ 0 ∧ cb_calls (io st_count) = cb_calls (io st0) ∧
  drv (io st_count) = drv (io st0).
Proof.
  apply (register_huge_count demo_env (Some [0; 1]) (2 ^ 31)
           (Some (demo_cb demo_opps)) st0 (- EINVAL) st_count).
  - lia.
  - vm_compute. reflexivity.
Defined.

Lemma register_twice_witness :
  ∃ ret,
    em_register_perf_domain het_env (Some [1; 2; 3]) 7 (Some (demo_cb bad_opps)) st1
      = Ret ret st1 ∧
    (7 ≠ 0 → is_Some (Some (demo_cb bad_opps)) → ret = - EEXIST) ∧
    (7 = 0 ∨ Some (demo_cb bad_opps) = None → ret = - EINVAL).
Proof.
  apply (register_twice demo_env [0; 1] 4 (Some (demo_cb demo_opps)) st0 st1
           het_env 1 [2; 3] 7 (Some (demo_cb bad_opps))).
  - lia.
  - vm_compute. reflexivity.
  - apply list_elem_of_further, list_elem_of_here.
Defined.

Lemma reachable_registry_consistent_witness :
  (∀ cpu pd, em_cpu_get cpu st2 = Some pd ↔
             ∃ dm, heap st2 !! pd = Some dm ∧ cpu ∈ cpus dm) ∧
  (∀ p1 p2 d1 d2 cpu,
     heap st2 !! p1 = Some d1 → heap st2 !! p2 = Some d2 →
     cpu ∈ cpus d1 → cpu ∈ cpus d2 → p1 = p2).
Proof.
  apply (reachable_registry_consistent st2).
  apply (reach_register demo_env (Some [2; 3]) 1 (Some (demo_cb demo_opps)) st1 0 st2);
    [|lia | vm_compute; reflexivity].
  apply (reach_register demo_env (Some [0; 1]) 4 (Some (demo_cb demo_opps)) st0 0 st1);
    [apply (reach_boot io0) | lia | vm_compute; reflexivity].
Defined.

Lemma reachable_tables_well_formed_witness :
  ∃ dm, heap st1 !! 1%positive = Some dm ∧ 0 ∈ cpus dm ∧ wf_domain dm.
Proof.
  apply (reachable_tables_well_formed st1 0 1%positive).
  - apply (reach_register demo_env (Some [0; 1]) 4 (Some (demo_cb demo_opps)) st0 0 st1);
      [apply (reach_boot io0) | lia | vm_compute; reflexivity].
  - vm_compute. reflexivity.
Defined.

Lemma reachable_last_is_max_witness :
  ∃ lst, last (table demo_dom) = Some lst ∧
         ∀ cs, cs ∈ table demo_dom → frequency cs ≤ frequency lst.
Proof.
  apply (reachable_last_is_max st1 1%positive demo_dom).
  - apply (reach_register demo_env (Some [0; 1]) 4 (Some (demo_cb demo_opps)) st0 0 st1);
      [apply (reach_boot io0) | lia | vm_compute; reflexivity].
  - vm_compute. reflexivity.
Defined.

Lemma reachable_kobject_witness : em_kobject st1 = true.
Proof.
  apply (reachable_kobject st1 0).
  - apply (reach_register demo_env (Some [0; 1]) 4 (Some (demo_cb demo_opps)) st0 0 st1);
      [apply (reach_boot io0) | lia | vm_compute; reflexivity].
  - exists 1%positive. vm_compute. reflexivity.
Defined.

Lemma register_succeeds_witness :
  ∃ s' lst,
    em_register_perf_domain demo_env (Some [0; 1]) 4 (Some (demo_cb demo_opps)) st0
      = Ret 0 s' ∧
    last (l_table demo_l4) = Some lst ∧
    heap s' = <[fresh (dom (heap st0)) :=
                  mk_pd (set_cost (frequency lst) <$> l_table demo_l4) 4 [0; 1]]>
                (heap st0) ∧
    (∀ cpu, cpu ∈ [0; 1] → em_cpu_get cpu s' = Some (fresh (dom (heap st0)))) ∧
    klog (io s') =
      klog demo_o4 ++
      (if kobject_init_and_add_ret demo_env =? 0 then []
       else [PrErrKobject (cpumask_first demo_env [0; 1])
               (kobject_init_and_add_ret demo_env)]) ++
      [PrDebugCreated [0; 1]].
Proof.
  apply (register_succeeds demo_env [0; 1] 4 (demo_cb demo_opps)
           (opp_active_power demo_opps) st0 demo_l4 demo_o4).
  - lia.
  - reflexivity.
  - right. reflexivity.
  - vm_compute. reflexivity.
  - reflexivity.
  - reflexivity.
  - vm_compute. reflexivity.
Defined.

Lemma register_empty_mask_witness :
  0 ≠ - EEXIST ∧
  (∀ cpu, em_cpu_get cpu st_empty = em_cpu_get cpu st0) ∧
  (∃ new, cb_calls (io st_empty) = cb_calls (io st0) ++ new ∧
          ∀ c, c ∈ new → c.2 = nr_cpumask_bits demo_env) ∧
  (0 = 0 →
   ∃ dm, heap st0 !! fresh (dom (heap st0)) = None ∧
         heap st_empty = <[fresh (dom (heap st0)) := dm]> (heap st0) ∧ cpus dm = []).
Proof.
  apply (register_empty_mask demo_env 4 (Some (demo_cb demo_opps)) st0 0 st_empty).
  - lia.
  - vm_compute. reflexivity.
Defined.

Lemma loop_stops_on_status_witness :
  0 = 0 ∧ ∃ (k : nat) lk ok,
    (k < 5)%nat ∧
    em_create_pd_loop (opp_active_power demo_opps) 0 k (loop_init 5) io0 = (inr lk, ok) ∧
    rejects_status (opp_active_power demo_opps) 0 lk ok (- EINVAL).
Proof.
  apply (proj1 (loop_stops_on_status (opp_active_power demo_opps) 0 5 (loop_init 5)
                  io0 0 (- EINVAL))).
  vm_compute. reflexivity.
Defined.

Lemma loop_stops_on_frequency_witness :
  0 = 0 ∧ ∃ (k : nat) lk ok,
    (k < 1)%nat ∧
    em_create_pd_loop (opp_active_power null_opps) 0 k (loop_init 1) io0 = (inr lk, ok) ∧
    rejects_freq (opp_active_power null_opps) 0 lk ok 0.
Proof.
  apply (proj1 (loop_stops_on_frequency (opp_active_power null_opps) 0 1 (loop_init 1)
                  io0 0 0)).
  vm_compute. reflexivity.
Defined.

Lemma loop_succeeds_iff_witness :
  accepts (opp_active_power demo_opps) 0 demo_l1 demo_o1.
Proof.
  apply (proj1 (loop_succeeds_iff (opp_active_power demo_opps) 0 4 (loop_init 4) io0)
           (ex_intro _ demo_l4 (ex_intro _ demo_o4 eq_refl)) 1%nat demo_l1 demo_o1).
  - lia.
  - vm_compute. reflexivity.
Defined.

Lemma first_state_warning_witness :
  (klog demo_o1 = klog io0 ++ [PrWarnRatio 0 0 (-1)] ∧
   ∀ cs, l_table demo_l1 !! 0%nat = Some cs →
         frequency cs = ULONG_MAX ∧ power cs = 1)
  ∨ (klog demo_o1 = klog io0 ∧ l_prev_opp_eff demo_l1 < ULONG_MAX).
Proof.
  apply (first_state_warning (opp_active_power demo_opps) 0 4 io0 demo_l1 demo_o1).
  vm_compute. reflexivity.
Defined.

Lemma show_fits_page_witness :
  13 = Z.of_nat (length ["1"; "0"; " "; "1"; "5"; " "; "2"; "5"; " ";
                         "6"; "0"; " "; "010"]%char) ∧
  13 + 1 ≤ 4096 ∧
  last ["1"; "0"; " "; "1"; "5"; " "; "2"; "5"; " "; "6"; "0"; " "; "010"]%char
  = Some "010"%char.
Proof.
  apply (show_fits_page 4096 power demo_dom []).
  - lia.
  - vm_compute. reflexivity.
Defined.

(** In a page of 20 bytes the loop stops after two frequencies. *)
Lemma show_prints_prefix_witness :
  ∃ k : nat,
    (k ≤ Z.to_nat (nr_cap_states demo_dom))%nat ∧ (k ≤ length (table demo_dom))%nat ∧
    ["1"; "0"; "0"; " "; "2"; "0"; "0"; " "; "010"]%char
    = table_text frequency (take k (table demo_dom)) ++ ["010"%char] ∧
    ((k < Z.to_nat (nr_cap_states demo_dom))%nat →
     20 - 15 ≤ Z.of_nat (length (table_text frequency (take k (table demo_dom))))) ∧
    ∀ j : nat, (j < k)%nat →
      Z.of_nat (length (table_text frequency (take j (table demo_dom)))) < 20 - 15.
Proof.
  apply (show_prints_prefix 20 frequency demo_dom [] 9).
  - lia.
  - vm_compute. reflexivity.
Defined.

Lemma show_prints_all_witness :
  show_table_attr 4096 cost demo_dom []
  = Some (Z.of_nat (length (table_text cost (table demo_dom))) + 1,
          table_text cost (table demo_dom) ++ ["010"%char]).
Proof.
  apply (show_prints_all 4096 cost demo_dom []).
  - lia.
  - reflexivity.
  - vm_compute. reflexivity.
Defined.

Lemma scnprintf_full_or_cut_witness :
  (2 ^ 63 < 10 ^ 12 →
   scnprintf (EM_ATTR_LEN + 1) (fmt_lu (2 ^ 63)) = dec_go 20 (2 ^ 63) [] ++ [" "%char]) ∧
  (10 ^ 12 ≤ 2 ^ 63 →
   scnprintf (EM_ATTR_LEN + 1) (fmt_lu (2 ^ 63)) = take 13 (dec_go 20 (2 ^ 63) []) ∧
   length (scnprintf (EM_ATTR_LEN + 1) (fmt_lu (2 ^ 63))) = 13%nat ∧
   " "%char ∉ scnprintf (EM_ATTR_LEN + 1) (fmt_lu (2 ^ 63))).
Proof.
  apply (scnprintf_full_or_cut (2 ^ 63)). lia.
Defined.

Lemma reachable_show_safe_witness :
  ∃ dm cnt text,
    heap st1 !! 1%positive = Some dm ∧
    show_table_attr 4096 frequency dm [] = Some (cnt, text) ∧
    cnt = Z.of_nat (length text) ∧ cnt + 1 ≤ 4096.
Proof.
  apply (reachable_show_safe st1 0 1%positive 4096 frequency []).
  - apply (reach_register demo_env (Some [0; 1]) 4 (Some (demo_cb demo_opps)) st0 0 st1);
      [apply (reach_boot io0) | lia | vm_compute; reflexivity].
  - vm_compute. reflexivity.
  - lia.
Defined.

Lemma show_power_published_witness :
  ∃ mask pd dm cnt,
    Some [0; 1] = Some mask ∧ installed mask st0 st1 pd dm ∧
    show_power 4096 dm []
    = Some (cnt, concat ((λ cs, dec_go 20 (power cs) [] ++ [" "%char]) <$> table dm)
                 ++ ["010"%char]).
Proof.
  apply (show_power_published demo_env (Some [0; 1]) 4 (Some (demo_cb demo_opps))
           st0 st1 4096 []).
  - lia.
  - vm_compute. reflexivity.
  - lia.
  - lia.
Defined.

(** ** Calls that are turned down *)

Section Refusals.

Context {D : Type}.
Implicit Types (s : em_state D) (o : io_state D) (m : gmap Z addr).






End Refusals.


(** A capacity of 0 is never compared with the next one: with CPU 2
    registered and capacities 0 and 1024 for CPUs 0 and 1, the scan reaches
    CPU 2. *)
Example scan_skips_zero_capacity :
  ∃ s', em_register_perf_domain zero_env (Some [0; 1; 2]) 4
          (Some (demo_cb demo_opps)) st_big = Ret (- EEXIST) s'.
Proof. eexists. vm_compute. reflexivity. Qed.

